(** * The wallet service (pkg/wallet/service.go): model and properties

    The Go service keeps three slices of pointers (accounts, payments,
    favorites) and an int64 counter.  The model below passes the service
    value explicitly; a pointer into a slice is the position of the pointee
    in that slice (the slices only ever grow at the end, so positions are
    stable), and a mutation through a pointer is an update at that position.
    int64 values are integers of [Z] with the wrap-around of the Go
    arithmetic written out. *)

From Stdlib Require Import ZArith Ascii String Lia DecimalString DecimalPos.
From stdpp Require Import base list strings gmap.

Open Scope Z_scope.

(** ** int64 arithmetic *)

Module int64.

Definition min_int64 : Z := - 2 ^ 63.
Definition max_int64 : Z := 2 ^ 63 - 1.

(** Two's-complement reduction of a mathematical integer to int64. *)
Definition wrap (z : Z) : Z := (z + 2 ^ 63) mod 2 ^ 64 - 2 ^ 63.

Definition add (a b : Z) : Z := wrap (a + b).
Definition sub (a b : Z) : Z := wrap (a - b).
Definition neg (a : Z) : Z := wrap (- a).

Definition in_range (z : Z) : Prop := min_int64 <= z <= max_int64.

End int64.

(** ** strconv: the two library functions the service calls

    [FormatInt] and [ParseInt] belong to the Go standard library, not to the
    repository; they are modelled here, for base 10 and 64 bits (the only
    arguments service.go passes), after the library's algorithm. *)

Module strconv.

Inductive NumError : Type := ErrSyntax | ErrRange.

Definition maxUint64 : Z := 2 ^ 64 - 1.

Definition digit_byte (d : Z) : ascii := ascii_of_N (Z.to_N (48 + d)).

Definition byte_code (c : ascii) : Z := Z.of_N (N_of_ascii c).

(** Decimal digits of [u], most significant first, written in front of
    [acc]; the library fills its buffer from the right in the same way.
    [fuel] bounds the number of digits (20 for a 64-bit value). *)
Fixpoint formatBits (fuel : nat) (u : Z) (acc : string) : string :=
  match fuel with
  | O => acc
  | S fuel' =>
      let acc' := String (digit_byte (u mod 10)) acc in
      if u <? 10 then acc' else formatBits fuel' (u / 10) acc'
  end.

(** [strconv.FormatInt(i, 10)]. *)
Definition FormatInt (i : Z) : string :=
  if i <? 0 then String "-"%char (formatBits 20 (- i) EmptyString)
  else formatBits 20 i EmptyString.

(** The digit loop of [strconv.ParseUint(s, 10, 64)], with [n] the value
    accumulated so far. *)
Fixpoint parseUint_loop (s : string) (n : Z) : Z * option NumError :=
  match s with
  | EmptyString => (n, None)
  | String c rest =>
      if (48 <=? byte_code c) && (byte_code c <=? 57) then
        let d := byte_code c - 48 in
        if n >=? maxUint64 / 10 + 1 then (maxUint64, Some ErrRange)
        else
          let n10 := n * 10 in
          let n1 := (n10 + d) mod 2 ^ 64 in
          if (n1 <? n10) || (n1 >? maxUint64) then (maxUint64, Some ErrRange)
          else parseUint_loop rest n1
      else (0, Some ErrSyntax)
  end.

Definition ParseUint (s : string) : Z * option NumError :=
  match s with
  | EmptyString => (0, Some ErrSyntax)
  | _ => parseUint_loop s 0
  end.

(** [strconv.ParseInt(s, 10, 64)]: an optional sign, then [ParseUint];
    a syntax error gives 0, a value out of range gives the nearest int64. *)
Definition ParseInt (s : string) : Z * option NumError :=
  match s with
  | EmptyString => (0, Some ErrSyntax)
  | String c rest =>
      let '(neg, s') :=
        if Ascii.eqb c "+" then (false, rest)
        else if Ascii.eqb c "-" then (true, rest)
        else (false, s) in
      let '(un, err) := ParseUint s' in
      match err with
      | Some ErrSyntax => (0, Some ErrSyntax)
      | _ =>
          let cutoff := 2 ^ 63 in
          if negb neg && (un >=? cutoff) then (cutoff - 1, Some ErrRange)
          else if neg && (un >? cutoff) then (- cutoff, Some ErrRange)
          else
            let n := int64.wrap un in
            (if neg then int64.neg n else n, None)
      end
  end.

End strconv.

(** ** strings.Split for a one-byte separator

    service.go only splits on ["|"] and [";"].  The result always has one
    more element than the string has separators; in particular the empty
    string splits into one empty segment. *)

Module gostrings.

Fixpoint Split (s : string) (sep : ascii) : list string :=
  match s with
  | EmptyString => [EmptyString]
  | String c rest =>
      if Ascii.eqb c sep then EmptyString :: Split rest sep
      else match Split rest sep with
           | seg :: segs => String c seg :: segs
           | [] => [String c EmptyString]
           end
  end.

End gostrings.

(** ** The entity types of pkg/types *)

Module types.

(** Modelled from the spec: the package pkg/types, which service.go
    imports, is not among the sources.  By section 3 of the specification
    and the conversions in service.go, [Money] is an int64, and [Phone]
    and [PaymentCategory] are strings. *)
Definition Money : Type := Z.
Definition Phone : Type := string.
Definition PaymentCategory : Type := string.

(** Modelled from the spec: the payment status enumeration of pkg/types
    (section 3: InProgress and Failed). *)
Inductive PaymentStatus : Type :=
| PaymentStatusInProgress
| PaymentStatusFail.

(** Modelled from the spec: the struct Account of pkg/types, with the
    fields ID, Phone and Balance. *)
Record Account : Type := mkAccount {
  Account_ID : Z;
  Account_Phone : Phone;
  Account_Balance : Money
}.

(** Modelled from the spec: the struct Payment of pkg/types, with the
    fields ID, AccountID, Amount, Category and Status. *)
Record Payment : Type := mkPayment {
  Payment_ID : string;
  Payment_AccountID : Z;
  Payment_Amount : Money;
  Payment_Category : PaymentCategory;
  Payment_Status : PaymentStatus
}.

(** Modelled from the spec: the struct Favorite of pkg/types, with the
    fields ID, AccountID, Name, Amount and Category. *)
Record Favorite : Type := mkFavorite {
  Favorite_ID : string;
  Favorite_AccountID : Z;
  Favorite_Name : string;
  Favorite_Amount : Money;
  Favorite_Category : PaymentCategory
}.

End types.

(** ** The service *)

Module wallet.

Import types.

(** The sentinel errors of the package, and the errors that come from the
    operating system: [ErrOpen] for a path that has no file, [ErrIO] for
    any other one, with its message. *)
Inductive error : Type :=
| ErrPhoneRegistered
| ErrAmountMustBePositive
| ErrAccountNotFound
| ErrNotEnoughBalance
| ErrPaymentNotFound
| ErrCannotRegisterAccount
| ErrCannotDepositAccount
| ErrFavoriteNotFound
| ErrOpen (path : string)
| ErrIO (msg : string).

(** The result of a Go function returning a pointer and an error: exactly
    one of the two is non-nil in every return of service.go. *)
Inductive result (A : Type) : Type :=
| Ok (a : A)
| Err (e : error).
Arguments Ok {A} a.
Arguments Err {A} e.

Record Service : Type := mkService {
  nextAccountID : Z;
  accounts : list Account;
  payments : list Payment;
  favorites : list Favorite
}.

(** The zero value [Service{}], a fresh service. *)
Definition empty : Service := mkService 0 [] [] [].

Definition set_nextAccountID (s : Service) (n : Z) : Service :=
  mkService n (accounts s) (payments s) (favorites s).
Definition set_accounts (s : Service) (l : list Account) : Service :=
  mkService (nextAccountID s) l (payments s) (favorites s).
Definition set_payments (s : Service) (l : list Payment) : Service :=
  mkService (nextAccountID s) (accounts s) l (favorites s).
Definition set_favorites (s : Service) (l : list Favorite) : Service :=
  mkService (nextAccountID s) (accounts s) (payments s) l.

(** [account.Balance += d] and [payment.Status = st] on the pointees. *)
Definition credit (d : Money) (a : Account) : Account :=
  mkAccount (Account_ID a) (Account_Phone a) (int64.add (Account_Balance a) d).
Definition debit (d : Money) (a : Account) : Account :=
  mkAccount (Account_ID a) (Account_Phone a) (int64.sub (Account_Balance a) d).
Definition set_status (st : PaymentStatus) (p : Payment) : Payment :=
  mkPayment (Payment_ID p) (Payment_AccountID p) (Payment_Amount p)
            (Payment_Category p) st.

(** A returned pointer is modelled as the position of the pointee,
    together with the value the pointee holds when the call returns. *)
Definition RegisterAccount (s : Service) (phone : Phone)
  : Service * result (nat * Account) :=
  match list_find (fun account => Account_Phone account = phone) (accounts s) with
  | Some _ => (s, Err ErrPhoneRegistered)
  | None =>
      let s1 := set_nextAccountID s (int64.add (nextAccountID s) 1) in
      let account := mkAccount (nextAccountID s1) phone 0 in
      (set_accounts s1 (accounts s1 ++ [account]),
       Ok (length (accounts s1), account))
  end.

Definition Deposit (s : Service) (accountID : Z) (amount : Money)
  : Service * option error :=
  if amount <=? 0 then (s, Some ErrAmountMustBePositive)
  else
    match list_find (fun acc => Account_ID acc = accountID) (accounts s) with
    | None => (s, Some ErrAccountNotFound)
    | Some (account, _) =>
        (set_accounts s (alter (credit amount) account (accounts s)), None)
    end.

(** The lookups return the pointer (a position) and the value it points
    to at the time of the call. *)
Definition FindAccountByID (s : Service) (accountID : Z)
  : result (nat * Account) :=
  match list_find (fun account => Account_ID account = accountID) (accounts s) with
  | Some found => Ok found
  | None => Err ErrAccountNotFound
  end.

Definition FindPaymentByID (s : Service) (paymentID : string)
  : result (nat * Payment) :=
  match list_find (fun payment => Payment_ID payment = paymentID) (payments s) with
  | Some found => Ok found
  | None => Err ErrPaymentNotFound
  end.

Definition FindFavoriteByID (s : Service) (favoriteID : string)
  : result (nat * Favorite) :=
  match list_find (fun favorite => Favorite_ID favorite = favoriteID) (favorites s) with
  | Some found => Ok found
  | None => Err ErrFavoriteNotFound
  end.

(** [uuid] is the string that [uuid.New().String()] yields in this call. *)
Definition Pay (s : Service) (accountID : Z) (amount : Money)
    (category : PaymentCategory) (uuid : string)
  : Service * result (nat * Payment) :=
  if amount <=? 0 then (s, Err ErrAmountMustBePositive)
  else
    match FindAccountByID s accountID with
    | Err err => (s, Err err)
    | Ok (account, account_val) =>
        if Account_Balance account_val <? amount then (s, Err ErrNotEnoughBalance)
        else
          let s1 := set_accounts s (alter (debit amount) account (accounts s)) in
          let paymentID := uuid in
          let payment :=
            mkPayment paymentID accountID amount category PaymentStatusInProgress in
          (set_payments s1 (payments s1 ++ [payment]),
           Ok (length (payments s1), payment))
    end.

Definition Reject (s : Service) (paymentID : string) : Service * option error :=
  match FindPaymentByID s paymentID with
  | Err err => (s, Some err)
  | Ok (payment, payment_val) =>
      match FindAccountByID s (Payment_AccountID payment_val) with
      | Err er => (s, Some er)
      | Ok (account, _) =>
          let s1 :=
            set_payments s (alter (set_status PaymentStatusFail) payment (payments s)) in
          (set_accounts s1
             (alter (credit (Payment_Amount payment_val)) account (accounts s1)),
           None)
      end
  end.

(** Here only the pointer is returned: the deposit may have changed the
    pointee since [RegisterAccount] returned it. *)
Definition AddAccountWithBalance (s : Service) (phone : Phone) (balance : Money)
  : Service * result nat :=
  match RegisterAccount s phone with
  | (s1, Err _) => (s1, Err ErrCannotRegisterAccount)
  | (s1, Ok (account, account_val)) =>
      match Deposit s1 (Account_ID account_val) balance with
      | (s2, Some _) => (s2, Err ErrCannotDepositAccount)
      | (s2, None) => (s2, Ok account)
      end
  end.

Definition Repeat (s : Service) (paymentID : string) (uuid : string)
  : Service * result (nat * Payment) :=
  match FindPaymentByID s paymentID with
  | Err err => (s, Err err)
  | Ok (_, targetPayment) =>
      match Pay s (Payment_AccountID targetPayment) (Payment_Amount targetPayment)
                (Payment_Category targetPayment) uuid with
      | (s1, Err err) => (s1, Err err)
      | (s1, Ok newPayment) => (s1, Ok newPayment)
      end
  end.

Definition FavoritePayment (s : Service) (paymentID : string) (name : string)
    (uuid : string) : Service * result (nat * Favorite) :=
  match FindPaymentByID s paymentID with
  | Err err => (s, Err err)
  | Ok (_, payment) =>
      let favorite :=
        mkFavorite uuid (Payment_AccountID payment) name (Payment_Amount payment)
                   (Payment_Category payment) in
      (set_favorites s (favorites s ++ [favorite]),
       Ok (length (favorites s), favorite))
  end.

Definition PayFromFavorite (s : Service) (favoriteID : string) (uuid : string)
  : Service * result (nat * Payment) :=
  match FindFavoriteByID s favoriteID with
  | Err err => (s, Err err)
  | Ok (_, favorite) =>
      match Pay s (Favorite_AccountID favorite) (Favorite_Amount favorite)
                (Favorite_Category favorite) uuid with
      | (s1, Err err) => (s1, Err err)
      | (s1, Ok payment) => (s1, Ok payment)
      end
  end.

Definition getAccounts (s : Service) : list Account := accounts s.

(** *** Persistence

    The file system is a finite map from paths to contents.  What the
    operating system answers to [os.Create] and [file.Write], and to
    [os.Open] and [file.Read], is an argument of [ExportToFile_os] and of
    [ImportFromFile_os], which follow every return of the two functions.
    [ExportToFile] and [ImportFromFile] are the same calls where the
    operating system does not fail: creating and writing succeed, a path
    opens exactly when it has a file, and reading hands out the whole file,
    in pieces of at most four bytes (the size of [buff]). *)

(** The answer to [os.Create] and to the [file.Write]s that follow.  The
    creation fails with [err]; or it succeeds, and with a fault [(k, n, err)]
    the write number [k] (counted from 0) puts only the first [n] bytes of
    its buffer into the file and returns [err], the writes before it being
    complete.  Without a fault every write is complete. *)
Inductive created : Type :=
| create_error (err : error)
| create_file (fault : option (nat * nat * error)).

(** The bytes [ID + phone + balance + "|"] of an account. *)
Definition account_bytes (account : Account) : string :=
  let ID := strconv.FormatInt (Account_ID account) +:+ ";" in
  let phone := Account_Phone account +:+ ";" in
  let balance := strconv.FormatInt (Account_Balance account) in
  ID +:+ phone +:+ balance +:+ "|".

(** [file.Write(b)], as the write number [k]: the bytes that reach the
    file, and the error. *)
Definition file_Write (fault : option (nat * nat * error)) (k : nat) (b : string)
  : string * option error :=
  match fault with
  | Some (k', n, err) =>
      if Nat.eqb k k' then (String.substring 0 n b, Some err) else (b, None)
  | None => (b, None)
  end.

(** The loop of [ExportToFile] from the write number [k] on; [file] is what
    has been written so far. *)
Fixpoint export_loop (accounts : list Account) (k : nat)
    (fault : option (nat * nat * error)) (file : string) : string * option error :=
  match accounts with
  | [] => (file, None)
  | account :: accounts' =>
      let '(written, err) := file_Write fault k (account_bytes account) in
      match err with
      | Some _ => (file +:+ written, err)
      | None => export_loop accounts' (S k) fault (file +:+ written)
      end
  end.

Definition ExportToFile_os (answer : created) (s : Service) (path : string)
    (fs : gmap string string) : gmap string string * option error :=
  match answer with
  | create_error err => (fs, Some err)
  | create_file fault =>
      let '(file, err) := export_loop (getAccounts s) 0 fault EmptyString in
      (<[path := file]> fs, err)
  end.

Definition ExportToFile (s : Service) (path : string) (fs : gmap string string)
  : gmap string string * option error :=
  ExportToFile_os (create_file None) s path fs.

(** The answer to [os.Open] and to the [file.Read]s that follow.  The
    opening fails with [err]; or it succeeds, and the reads hand out
    [bytes] and then report [io.EOF], or, with a fault, the error of the
    fault instead. *)
Inductive opened : Type :=
| open_error (err : error)
| open_file (bytes : string) (fault : option error).

(** [os.Open] where the files are those of [fs] and reading does not fail. *)
Definition Open (fs : gmap string string) (path : string) : opened :=
  match fs !! path with
  | Some bytes => open_file bytes None
  | None => open_error (ErrOpen path)
  end.

(** The read loop of [ImportFromFile] up to its last [file.Read]: [file] is
    the unread rest of the file, [content] what has been read so far. *)
Fixpoint read_loop (file : string) (content : string) {struct file} : string :=
  match file with
  | EmptyString => content
  | String b0 (String b1 (String b2 (String b3 rest))) =>
      read_loop rest
        (content +:+ String b0 (String b1 (String b2 (String b3 EmptyString))))
  | _ => content +:+ file
  end.

(** How a call ends: it returns its error value, or it panics. *)
Inductive outcome : Type :=
| Return (err : option error)
| Panic.

(** The loop over the records of [ImportFromFile]; [err] is the variable
    of the enclosing function that both of its [return err] read.  An
    index beyond the length of [item] is a run-time panic in Go. *)
Fixpoint import_lines (lines : list string) (err : option error) (s : Service)
  : Service * outcome :=
  match lines with
  | [] => (s, Return err)
  | line :: lines' =>
      if (Z.of_nat (String.length line) <=? 0) then (s, Return err)
      else
        let item := gostrings.Split line ";" in
        match item !! 0%nat, item !! 2%nat, item !! 1%nat with
        | Some item0, Some item2, Some item1 =>
            let ID := fst (strconv.ParseInt item0) in
            let balance := fst (strconv.ParseInt item2) in
            import_lines lines' err
              (set_accounts s (accounts s ++ [mkAccount ID item1 balance]))
        | _, _, _ => (s, Panic)
        end
  end.

(** After a successful [os.Open] the variable [err] holds nil.  The last
    [file.Read] ends the read loop with [io.EOF], or ends the call with its
    error; only then are the records looked at. *)
Definition ImportFromFile_os (answer : opened) (s : Service) : Service * outcome :=
  match answer with
  | open_error err => (s, Return (Some err))
  | open_file file fault =>
      let err : option error := None in
      let content := read_loop file EmptyString in
      match fault with
      | Some read_err => (s, Return (Some read_err))
      | None =>
          let str := content in
          import_lines (gostrings.Split str "|") err s
      end
  end.

Definition ImportFromFile (s : Service) (path : string) (fs : gmap string string)
  : Service * outcome :=
  ImportFromFile_os (Open fs path) s.

End wallet.

(** ** The file format and the calls of the service, as the specification
    words them *)

Module spec.
Import types wallet.

(** Whether the byte [c] occurs in [s]. *)
Fixpoint contains_byte (c : ascii) (s : string) : bool :=
  match s with
  | EmptyString => false
  | String b rest => Ascii.eqb b c || contains_byte c rest
  end.

(** The phone of an account holds no byte [sep]. *)
Definition clean_for (sep : ascii) (a : Account) : Prop :=
  contains_byte sep (Account_Phone a) = false.

(** The int64 fields of an account are int64 values. *)
Definition int64_fields (a : Account) : Prop :=
  int64.in_range (Account_ID a) /\ int64.in_range (Account_Balance a).

(** The decimal numeral of an integer, as the standard library of Rocq
    writes it: the digits without leading zeros, behind a minus sign for a
    negative number. *)
Definition decimal (i : Z) : string := NilZero.string_of_int (Z.to_int i).

(** The record ["<ID>;<Phone>;<Balance>"] of the specification, and the
    file of the specification: every record followed by its delimiter, in
    collection order, and nothing else. *)
Definition written_record (a : Account) : string :=
  decimal (Account_ID a) +:+ ";" +:+ Account_Phone a +:+ ";"
    +:+ decimal (Account_Balance a).

Fixpoint written_file (l : list Account) : string :=
  match l with
  | [] => EmptyString
  | a :: l' => written_record a +:+ "|" +:+ written_file l'
  end.

(** The digits of [u], least significant first, as a numeral of the
    standard library: a device to compare the digit loop of
    [strconv.FormatInt] with [decimal]. *)
Definition digit_uint (k : Z) (d : Decimal.uint) : Decimal.uint :=
  match k with
  | 0 => Decimal.D0 d | 1 => Decimal.D1 d | 2 => Decimal.D2 d
  | 3 => Decimal.D3 d | 4 => Decimal.D4 d | 5 => Decimal.D5 d
  | 6 => Decimal.D6 d | 7 => Decimal.D7 d | 8 => Decimal.D8 d
  | _ => Decimal.D9 d
  end.

Fixpoint little_digits (fuel : nat) (u : Z) : Decimal.uint :=
  match fuel with
  | O => Decimal.Nil
  | S fuel' =>
      digit_uint (u mod 10)
        (if u <? 10 then Decimal.Nil else little_digits fuel' (u / 10))
  end.

(** *** Reading a field as a number

    What the specification can say of a field without looking into
    [strconv.ParseInt]. *)










(** The record of an account in the file format. *)
Definition record_of (a : Account) : string :=
  strconv.FormatInt (Account_ID a) +:+ ";" +:+ Account_Phone a +:+ ";"
    +:+ strconv.FormatInt (Account_Balance a).

Definition concat_strings (l : list string) : string := foldr String.append EmptyString l.

(** The file the specification describes: every record followed by its
    delimiter, in collection order, and nothing else. *)
Definition file_of (l : list Account) : string :=
  concat_strings (map (fun a => record_of a +:+ "|") l).

(** Field [i] of a record. *)
Definition field (i : nat) (line : string) : string :=
  default EmptyString (gostrings.Split line ";" !! i).

(** The account the specification builds from a record. *)
Definition record_account (line : string) : Account :=
  mkAccount (fst (strconv.ParseInt (field 0 line))) (field 1 line)
            (fst (strconv.ParseInt (field 2 line))).


Definition nonempty (line : string) : bool :=
  match line with EmptyString => false | _ => true end.

Definition three_fields (line : string) : bool :=
  (3 <=? length (gostrings.Split line ";"))%nat.

(** The records in front of the first empty segment. *)
Fixpoint records_before_empty (lines : list string) : list string :=
  match lines with
  | [] => []
  | line :: lines' =>
      if nonempty line then line :: records_before_empty lines' else []
  end.

(** The records in front of the first segment that is empty or has fewer
    than three fields. *)
Fixpoint accepted (lines : list string) : list string :=
  match lines with
  | [] => []
  | line :: lines' =>
      if nonempty line && three_fields line then line :: accepted lines' else []
  end.

(** Whether the first segment that is not accepted is a non-empty one. *)
Fixpoint short_record (lines : list string) : bool :=
  match lines with
  | [] => false
  | line :: lines' =>
      if nonempty line then
        if three_fields line then short_record lines' else true
      else false
  end.

End spec.

Module ledger.
Import types wallet spec.

(** The service together with the files it can export to and import from. *)
Record world : Type := mkWorld {
  svc : Service;
  files : gmap string string
}.

(** One call of an operation of the service, with its arguments. *)
Inductive op : Type :=
| OpRegisterAccount (phone : Phone)
| OpDeposit (accountID : Z) (amount : Money)
| OpPay (accountID : Z) (amount : Money) (category : PaymentCategory) (uuid : string)
| OpReject (paymentID : string)
| OpRepeat (paymentID : string) (uuid : string)
| OpFavoritePayment (paymentID : string) (name : string) (uuid : string)
| OpPayFromFavorite (favoriteID : string) (uuid : string)
| OpAddAccountWithBalance (phone : Phone) (balance : Money)
| OpExportToFile (path : string)
| OpImportFromFile (path : string).

(** The state a call leaves behind, whatever it returns (after a panic of
    [ImportFromFile], the accounts appended before it remain). *)
Definition exec (o : op) (w : world) : world :=
  match o with
  | OpRegisterAccount phone =>
      mkWorld (fst (RegisterAccount (svc w) phone)) (files w)
  | OpDeposit accountID amount =>
      mkWorld (fst (Deposit (svc w) accountID amount)) (files w)
  | OpPay accountID amount category uuid =>
      mkWorld (fst (Pay (svc w) accountID amount category uuid)) (files w)
  | OpReject paymentID =>
      mkWorld (fst (Reject (svc w) paymentID)) (files w)
  | OpRepeat paymentID uuid =>
      mkWorld (fst (Repeat (svc w) paymentID uuid)) (files w)
  | OpFavoritePayment paymentID name uuid =>
      mkWorld (fst (FavoritePayment (svc w) paymentID name uuid)) (files w)
  | OpPayFromFavorite favoriteID uuid =>
      mkWorld (fst (PayFromFavorite (svc w) favoriteID uuid)) (files w)
  | OpAddAccountWithBalance phone balance =>
      mkWorld (fst (AddAccountWithBalance (svc w) phone balance)) (files w)
  | OpExportToFile path =>
      mkWorld (svc w) (fst (ExportToFile (svc w) path (files w)))
  | OpImportFromFile path =>
      mkWorld (fst (ImportFromFile (svc w) path (files w))) (files w)
  end.

(** The states reachable from the fresh service, started with the files
    [fs0], by any sequence of calls. *)
Inductive reachable (fs0 : gmap string string) : world -> Prop :=
| reachable_init : reachable fs0 (mkWorld empty fs0)
| reachable_step w o : reachable fs0 w -> reachable fs0 (exec o w).

(** A credit that does not exceed the largest int64. *)
Definition credit_fits (s : Service) (accountID : Z) (amount : Money) : Prop :=
  forall i a, FindAccountByID s accountID = Ok (i, a) ->
              Account_Balance a + amount <= int64.max_int64.

(** A call that neither overflows a balance nor imports a negative one. *)
Definition safe (o : op) (w : world) : Prop :=
  match o with
  | OpDeposit accountID amount => credit_fits (svc w) accountID amount
  | OpReject paymentID =>
      forall i p, FindPaymentByID (svc w) paymentID = Ok (i, p) ->
                  credit_fits (svc w) (Payment_AccountID p) (Payment_Amount p)
  | OpAddAccountWithBalance phone balance =>
      forall s1 i a, RegisterAccount (svc w) phone = (s1, Ok (i, a)) ->
                     credit_fits s1 (Account_ID a) balance
  | OpImportFromFile path =>
      forall content, files w !! path = Some content ->
        Forall (fun line => 0 <= Account_Balance (record_account line))
               (accepted (gostrings.Split content "|"))
  | _ => True
  end.

Inductive reachable_safely (fs0 : gmap string string) : world -> Prop :=
| reachable_safely_init : reachable_safely fs0 (mkWorld empty fs0)
| reachable_safely_step w o :
    reachable_safely fs0 w -> safe o w -> reachable_safely fs0 (exec o w).

Definition balances_nonneg (s : Service) : Prop :=
  Forall (fun a => 0 <= Account_Balance a) (accounts s).

(** Registering the phones of a list one after the other. *)
Definition register_all (phones : list Phone) (s : Service) : Service :=
  foldl (fun s phone => fst (RegisterAccount s phone)) s phones.

(** The accounts carry the IDs 1, 2, ... in order, and the counter is their
    number. *)
Definition sequential (s : Service) : Prop :=
  nextAccountID s = Z.of_nat (length (accounts s)) /\
  map Account_ID (accounts s) = map Z.of_nat (seq 1 (length (accounts s))).

(** Every balance is a non-negative int64 and every payment has a positive
    amount. *)
Definition sound (s : Service) : Prop :=
  Forall (fun a => 0 <= Account_Balance a <= int64.max_int64) (accounts s) /\
  Forall (fun p => 0 < Payment_Amount p) (payments s).

End ledger.

(** ** Series of calls, and the relations between the states before and
    after them *)

Module history.
Import types wallet spec ledger.

(** The calls of a list, one after the other. *)
Definition run (ops : list op) (w : world) : world :=
  foldl (fun w o => exec o w) w ops.

Definition is_import (o : op) : bool :=
  match o with
  | OpImportFromFile _ => true
  | _ => false
  end.

(** Some account of the collection has the ID. *)
Definition has_account (l : list Account) (accountID : Z) : Prop :=
  Exists (fun a => Account_ID a = accountID) l.

(** Every payment and every favorite names the ID of an account of the
    collection and carries a positive amount. *)
Definition linked (s : Service) : Prop :=
  Forall (fun p => has_account (accounts s) (Payment_AccountID p) /\
                   0 < Payment_Amount p) (payments s) /\
  Forall (fun f => has_account (accounts s) (Favorite_AccountID f) /\
                   0 < Favorite_Amount f) (favorites s).

(** The fields of an account, and of a payment, that no call writes to
    after the creation; a status that is [PaymentStatusFail] stays so. *)
Definition same_account (a a' : Account) : Prop :=
  Account_ID a' = Account_ID a /\ Account_Phone a' = Account_Phone a.

Definition same_payment (p p' : Payment) : Prop :=
  Payment_ID p' = Payment_ID p /\
  Payment_AccountID p' = Payment_AccountID p /\
  Payment_Amount p' = Payment_Amount p /\
  Payment_Category p' = Payment_Category p /\
  (Payment_Status p = PaymentStatusFail -> Payment_Status p' = PaymentStatusFail).

(** Every position of [l] is a position of [l'], with related elements. *)
Definition keeps {A : Type} (R : A -> A -> Prop) (l l' : list A) : Prop :=
  forall i x, l !! i = Some x -> exists x', l' !! i = Some x' /\ R x x'.

Definition extends (s s' : Service) : Prop :=
  keeps same_account (accounts s) (accounts s') /\
  keeps same_payment (payments s) (payments s') /\
  favorites s `prefix_of` favorites s'.

(** The elementary changes that the calls are made of.  With [imports]
    false, the appending of arbitrary accounts, which only [ImportFromFile]
    does, is left out. *)
Inductive change (imports : bool) : Service -> Service -> Prop :=
| change_registered s phone :
    Forall (fun a => Account_Phone a <> phone) (accounts s) ->
    change imports s
      (mkService (int64.add (nextAccountID s) 1)
         (accounts s ++ [mkAccount (int64.add (nextAccountID s) 1) phone 0])
         (payments s) (favorites s))
| change_credited s i amount :
    change imports s
      (mkService (nextAccountID s) (alter (credit amount) i (accounts s))
         (payments s) (favorites s))
| change_paid s i a amount category uuid :
    accounts s !! i = Some a -> 0 < amount -> amount <= Account_Balance a ->
    change imports s
      (mkService (nextAccountID s) (alter (debit amount) i (accounts s))
         (payments s ++
          [mkPayment uuid (Account_ID a) amount category PaymentStatusInProgress])
         (favorites s))
| change_failed s i :
    change imports s
      (mkService (nextAccountID s) (accounts s)
         (alter (set_status PaymentStatusFail) i (payments s)) (favorites s))
| change_favorited s i p name uuid :
    payments s !! i = Some p ->
    change imports s
      (mkService (nextAccountID s) (accounts s) (payments s)
         (favorites s ++
          [mkFavorite uuid (Payment_AccountID p) name (Payment_Amount p)
             (Payment_Category p)]))
| change_imported s l :
    imports = true ->
    change imports s
      (mkService (nextAccountID s) (accounts s ++ l) (payments s) (favorites s)).

(** The phones are pairwise different, and the IDs are 1, 2, ... in order
    with the counter at their number, as long as that number is an int64. *)
Definition registered_once (s : Service) : Prop :=
  NoDup (map Account_Phone (accounts s)) /\
  (Z.of_nat (length (accounts s)) <= int64.max_int64 -> sequential s).

End history.

(** * Properties *)

Section Int64Facts.
Import int64.

Lemma wrap_in_range z : in_range z -> wrap z = z.
Proof.
  unfold in_range, min_int64, max_int64, wrap. intros Hz.
  rewrite Z.mod_small; lia.
Qed.

Lemma wrap_range z : in_range (wrap z).
Proof.
  unfold in_range, min_int64, max_int64, wrap.
  pose proof (Z.mod_pos_bound (z + 2 ^ 63) (2 ^ 64)). lia.
Qed.

Lemma wrap_wrap_add x y : wrap (wrap x + y) = wrap (x + y).
Proof.
  unfold wrap. f_equal.
  replace (((x + 2 ^ 63) mod 2 ^ 64 - 2 ^ 63) + y + 2 ^ 63)
    with ((x + 2 ^ 63) mod 2 ^ 64 + y) by lia.
  rewrite Zplus_mod_idemp_l. f_equal. lia.
Qed.

Lemma neg_wrap_neg i : in_range i -> i < 0 -> neg (wrap (- i)) = i.
Proof.
  unfold in_range, min_int64, max_int64. intros Hr Hneg.
  destruct (Z.eq_dec i (- 2 ^ 63)) as [-> | Hne]; [reflexivity |].
  rewrite wrap_in_range by (unfold in_range, min_int64, max_int64; lia).
  unfold neg. rewrite Z.opp_involutive.
  apply wrap_in_range. unfold in_range, min_int64, max_int64. lia.
Qed.
End Int64Facts.

(** Decide a comparison of integers that linear arithmetic settles. *)
Ltac cmp_true e :=
  let E := fresh "E" in
  destruct e eqn:E;
  [| exfalso;
     first [apply Z.leb_gt in E | apply Z.ltb_ge in E
           | rewrite Z.geb_leb in E; apply Z.leb_gt in E
           | rewrite Z.gtb_ltb in E; apply Z.ltb_ge in E]; lia].
Ltac cmp_false e :=
  let E := fresh "E" in
  destruct e eqn:E;
  [exfalso;
   first [apply Z.leb_le in E | apply Z.ltb_lt in E
         | apply Z.geb_le in E | apply Z.gtb_lt in E]; lia |].

Section StrconvFacts.
Import strconv.

Lemma digit_cases d : 0 <= d <= 9 ->
  d = 0 \/ d = 1 \/ d = 2 \/ d = 3 \/ d = 4 \/ d = 5 \/ d = 6 \/ d = 7 \/ d = 8 \/ d = 9.
Proof. lia. Qed.

Lemma byte_code_digit d : 0 <= d <= 9 -> byte_code (digit_byte d) = 48 + d.
Proof.
  intros Hd. destruct (digit_cases d Hd) as [?|[?|[?|[?|[?|[?|[?|[?|[?|?]]]]]]]]];
    subst d; reflexivity.
Qed.

Lemma mod10_digit u : 0 <= u mod 10 <= 9.
Proof. pose proof (Z.mod_pos_bound u 10). lia. Qed.

Lemma parseUint_loop_digit d rest n :
  0 <= d <= 9 -> 0 <= n -> n * 10 + d <= maxUint64 ->
  parseUint_loop (String (digit_byte d) rest) n = parseUint_loop rest (n * 10 + d).
Proof.
  intros Hd Hn Hmax. cbn [parseUint_loop].
  rewrite byte_code_digit by done.
  cmp_true (48 <=? 48 + d). cmp_true (48 + d <=? 57).
  cbn [andb]. cbv zeta.
  replace (48 + d - 48) with d by lia.
  unfold maxUint64 in *.
  change (2 ^ 64) with 18446744073709551616 in *.
  change ((18446744073709551616 - 1) / 10 + 1) with 1844674407370955162.
  cmp_false (n >=? 1844674407370955162).
  rewrite Z.mod_small by lia.
  cmp_false (n * 10 + d <? n * 10).
  cmp_false (n * 10 + d >? 18446744073709551616 - 1).
  reflexivity.
Qed.

Lemma parseUint_formatBits fuel : forall u acc,
  0 <= u <= maxUint64 -> u < 10 ^ Z.of_nat fuel ->
  parseUint_loop (formatBits fuel u acc) 0 = parseUint_loop acc u.
Proof.
  induction fuel as [| fuel IH]; intros u acc Hu Hfuel.
  - change (10 ^ Z.of_nat 0) with 1 in Hfuel.
    assert (u = 0) as -> by lia. reflexivity.
  - cbn [formatBits]. cbv zeta.
    pose proof (mod10_digit u) as Hd.
    pose proof (Z.div_mod u 10 ltac:(lia)) as Hdm.
    destruct (u <? 10) eqn:Hlt.
    + apply Z.ltb_lt in Hlt. rewrite Z.mod_small by lia.
      rewrite parseUint_loop_digit by lia. f_equal.
    + apply Z.ltb_ge in Hlt.
      assert (0 <= u / 10) by (apply Z.div_pos; lia).
      rewrite IH.
      * rewrite parseUint_loop_digit by lia. f_equal. lia.
      * lia.
      * rewrite Nat2Z.inj_succ, Z.pow_succ_r in Hfuel by lia. lia.
Qed.

Lemma formatBits_head fuel : forall u acc,
  exists d rest, 0 <= d <= 9 /\ formatBits (S fuel) u acc = String (digit_byte d) rest.
Proof.
  induction fuel as [| fuel IH]; intros u acc.
  - exists (u mod 10), acc. split; [apply mod10_digit |].
    cbn. by destruct (u <? 10).
  - change (formatBits (S (S fuel)) u acc)
      with (if u <? 10 then String (digit_byte (u mod 10)) acc
            else formatBits (S fuel) (u / 10) (String (digit_byte (u mod 10)) acc)).
    destruct (u <? 10).
    + exists (u mod 10), acc. split; [apply mod10_digit | done].
    + apply IH.
Qed.

Lemma digit_byte_not_sign d : 0 <= d <= 9 ->
  Ascii.eqb (digit_byte d) "+" = false /\ Ascii.eqb (digit_byte d) "-" = false.
Proof.
  intros Hd. destruct (digit_cases d Hd) as [?|[?|[?|[?|[?|[?|[?|[?|[?|?]]]]]]]]];
    subst d; split; reflexivity.
Qed.

Lemma ParseUint_formatBits u :
  0 <= u <= maxUint64 -> ParseUint (formatBits 20 u EmptyString) = (u, None).
Proof.
  intros Hu. destruct (formatBits_head 19 u EmptyString) as (d & rest & Hd & Heq).
  unfold ParseUint. rewrite Heq, <- Heq.
  rewrite parseUint_formatBits; [done | done |].
  unfold maxUint64 in Hu. change (10 ^ Z.of_nat 20) with 100000000000000000000.
  change (2 ^ 64) with 18446744073709551616 in Hu. lia.
Qed.

(** Parsing undoes formatting, for every int64. *)
Lemma ParseInt_FormatInt i : int64.in_range i -> ParseInt (FormatInt i) = (i, None).
Proof.
  intros Hr. pose proof Hr as Hr'.
  unfold int64.in_range, int64.min_int64, int64.max_int64 in Hr'.
  change (2 ^ 63) with 9223372036854775808 in Hr'.
  unfold FormatInt. destruct (i <? 0) eqn:Hneg.
  - apply Z.ltb_lt in Hneg.
    unfold ParseInt. change (Ascii.eqb "-" "+") with false.
    change (Ascii.eqb "-" "-") with true. cbv iota beta.
    rewrite ParseUint_formatBits
      by (unfold maxUint64; change (2 ^ 64) with 18446744073709551616; lia).
    cbn [negb andb]. change (2 ^ 63) with 9223372036854775808.
    cmp_false (- i >? 9223372036854775808).
    by rewrite neg_wrap_neg.
  - apply Z.ltb_ge in Hneg.
    destruct (formatBits_head 19 i EmptyString) as (d & rest & Hd & Heq).
    unfold ParseInt. rewrite Heq.
    destruct (digit_byte_not_sign d Hd) as [-> ->]. rewrite <- Heq.
    rewrite ParseUint_formatBits
      by (unfold maxUint64; change (2 ^ 64) with 18446744073709551616; lia).
    cbn [negb andb]. change (2 ^ 63) with 9223372036854775808.
    cmp_false (i >=? 9223372036854775808).
    by rewrite wrap_in_range.
Qed.
Lemma ParseInt_in_range s : int64.in_range (fst (ParseInt s)).
Proof.
  unfold ParseInt. destruct s as [| c rest]; [done |].
  destruct (if Ascii.eqb c "+" then (false, rest)
            else if Ascii.eqb c "-" then (true, rest)
            else (false, String c rest)) as [neg s'].
  destruct (ParseUint s') as [un [[] |]]; [done | |];
    destruct (negb neg && (un >=? 2 ^ 63)); try done;
    destruct (neg && (un >? 2 ^ 63)); try done;
    cbn [fst]; destruct neg; apply wrap_range.
Qed.

End StrconvFacts.

Section StringFacts.
Import spec.

Lemma string_app_cons x (a b : string) : String x a +:+ b = String x (a +:+ b).
Proof. reflexivity. Qed.

Lemma string_app_nil_l (b : string) : EmptyString +:+ b = b.
Proof. reflexivity. Qed.

Lemma string_app_byte x (b : string) : String x EmptyString +:+ b = String x b.
Proof. reflexivity. Qed.

Lemma string_app_assoc (a b c : string) : (a +:+ b) +:+ c = a +:+ (b +:+ c).
Proof.
  induction a as [| x a IH]; [done |]. rewrite !string_app_cons. by f_equal.
Qed.

Lemma string_app_nil_r (a : string) : a +:+ EmptyString = a.
Proof.
  induction a as [| x a IH]; [done |]. rewrite !string_app_cons. by f_equal.
Qed.

Lemma contains_byte_app c a b :
  contains_byte c (a +:+ b) = contains_byte c a || contains_byte c b.
Proof.
  induction a as [| x a IH]; [done |].
  rewrite string_app_cons. cbn [contains_byte].
  rewrite IH. by destruct (Ascii.eqb x c).
Qed.

Lemma string_length_app (a b : string) :
  String.length (a +:+ b) = (String.length a + String.length b)%nat.
Proof.
  induction a as [| x a IH]; [done |].
  rewrite string_app_cons. cbn [String.length]. by rewrite IH.
Qed.

End StringFacts.

Section SplitFacts.
Import gostrings spec.
Variable sep : ascii.

Lemma Split_cons s : exists seg segs, Split s sep = seg :: segs.
Proof.
  induction s as [| c s (seg & segs & IH)]; cbn; [by eauto |].
  destruct (Ascii.eqb c sep); [by eauto |]. rewrite IH. by eauto.
Qed.

(** Splitting distributes over a separator in the middle. *)
Lemma Split_app a b :
  Split (a +:+ String sep b) sep = Split a sep ++ Split b sep.
Proof.
  induction a as [| c a IH];
    [rewrite string_app_nil_l | rewrite string_app_cons]; cbn [Split].
  - by rewrite Ascii.eqb_refl.
  - destruct (Ascii.eqb c sep); [by rewrite IH |].
    rewrite IH. by destruct (Split_cons a) as (seg & segs & ->).
Qed.

Lemma Split_no_sep a : contains_byte sep a = false -> Split a sep = [a].
Proof.
  induction a as [| c a IH]; cbn; [done |].
  intros [Hc Ha]%orb_false_elim. rewrite Hc, IH; done.
Qed.

Lemma Split_length a b :
  length (Split (a +:+ String sep b) sep)
  = (length (Split a sep) + length (Split b sep))%nat.
Proof. by rewrite Split_app, length_app. Qed.

End SplitFacts.

Section FormatBytes.
Import strconv spec.

Lemma digit_byte_neq d c :
  0 <= d <= 9 -> byte_code c < 48 \/ 57 < byte_code c ->
  Ascii.eqb (digit_byte d) c = false.
Proof.
  intros Hd Hc. destruct (Ascii.eqb (digit_byte d) c) eqn:E; [| done].
  apply Ascii.eqb_eq in E. subst c. rewrite byte_code_digit in Hc by done. lia.
Qed.

Lemma formatBits_bytes c : byte_code c < 48 \/ 57 < byte_code c ->
  forall fuel u acc,
    contains_byte c (formatBits fuel u acc) = contains_byte c acc.
Proof.
  intros Hc. induction fuel as [| fuel IH]; intros u acc; [done |].
  cbn [formatBits]. cbv zeta.
  destruct (u <? 10); [| rewrite IH]; cbn [contains_byte];
    by rewrite digit_byte_neq by (done || apply mod10_digit).
Qed.

(** A formatted integer consists of digits and at most a leading minus
    sign, so it holds neither of the two separators of the file format. *)
Lemma FormatInt_bytes c i :
  byte_code c < 48 \/ 57 < byte_code c -> c <> "-"%char ->
  contains_byte c (FormatInt i) = false.
Proof.
  intros Hc Hminus. unfold FormatInt.
  destruct (i <? 0); cbn [contains_byte]; rewrite formatBits_bytes by done; [| done].
  cbn [contains_byte]. rewrite orb_false_r. apply Ascii.eqb_neq. congruence.
Qed.

Lemma FormatInt_no_semicolon i : contains_byte ";" (FormatInt i) = false.
Proof. apply FormatInt_bytes; [right; by vm_compute | done]. Qed.

Lemma FormatInt_no_bar i : contains_byte "|" (FormatInt i) = false.
Proof. apply FormatInt_bytes; [right; by vm_compute | done]. Qed.

End FormatBytes.

Section DecimalNumerals.
Import strconv spec.

Lemma string_of_digit_uint k d : 0 <= k <= 9 ->
  NilEmpty.string_of_uint (digit_uint k d)
  = String (digit_byte k) (NilEmpty.string_of_uint d).
Proof.
  intros Hk. destruct (digit_cases k Hk) as [?|[?|[?|[?|[?|[?|[?|[?|[?|?]]]]]]]]];
    subst k; reflexivity.
Qed.

Lemma revapp_digit_uint k d acc :
  Decimal.revapp (digit_uint k d) acc = Decimal.revapp d (digit_uint k acc).
Proof.
  unfold digit_uint. destruct k as [| p | p]; try done.
  do 4 (destruct p as [p | p |]; try done).
Qed.

Lemma formatBits_little_digits fuel : forall u acc,
  formatBits fuel u (NilEmpty.string_of_uint acc)
  = NilEmpty.string_of_uint (Decimal.revapp (little_digits fuel u) acc).
Proof.
  induction fuel as [| fuel IH]; intros u acc; [done |].
  cbn [formatBits little_digits]. cbv zeta.
  rewrite revapp_digit_uint, <- string_of_digit_uint by apply mod10_digit.
  destruct (u <? 10); [done | apply IH].
Qed.

Lemma of_lu_digit_uint k d : 0 <= k <= 9 ->
  Unsigned.of_lu (digit_uint k d) = (Z.to_N k + 10 * Unsigned.of_lu d)%N.
Proof.
  intros Hk. destruct (digit_cases k Hk) as [?|[?|[?|[?|[?|[?|[?|[?|[?|?]]]]]]]]];
    subst k; reflexivity.
Qed.

Lemma of_lu_little_digits fuel : forall u,
  0 <= u < 10 ^ Z.of_nat fuel -> Unsigned.of_lu (little_digits fuel u) = Z.to_N u.
Proof.
  induction fuel as [| fuel IH]; intros u Hu.
  - change (10 ^ Z.of_nat 0) with 1 in Hu. by replace u with 0 by lia.
  - cbn [little_digits]. rewrite of_lu_digit_uint by apply mod10_digit.
    pose proof (mod10_digit u). pose proof (Z.div_mod u 10 ltac:(lia)).
    destruct (u <? 10) eqn:Hlt.
    + apply Z.ltb_lt in Hlt. rewrite Z.mod_small by lia. cbn. lia.
    + apply Z.ltb_ge in Hlt. rewrite Nat2Z.inj_succ, Z.pow_succ_r in Hu by lia.
      assert (0 <= u / 10) by (apply Z.div_pos; lia).
      rewrite IH by lia. lia.
Qed.

Lemma nzhead_digit_uint k acc : 1 <= k <= 9 ->
  Decimal.nzhead (digit_uint k acc) = digit_uint k acc.
Proof.
  intros Hk.
  assert (k = 1 \/ k = 2 \/ k = 3 \/ k = 4 \/ k = 5 \/ k = 6 \/ k = 7 \/ k = 8 \/ k = 9)
    as [?|[?|[?|[?|[?|[?|[?|[?|?]]]]]]]] by lia; subst k; reflexivity.
Qed.

Lemma nzhead_little_digits fuel : forall u acc,
  0 < u < 10 ^ Z.of_nat fuel ->
  Decimal.nzhead (Decimal.revapp (little_digits fuel u) acc) = Decimal.revapp (little_digits fuel u) acc.
Proof.
  induction fuel as [| fuel IH]; intros u acc Hu.
  - change (10 ^ Z.of_nat 0) with 1 in Hu. lia.
  - cbn [little_digits]. rewrite revapp_digit_uint.
    pose proof (mod10_digit u). pose proof (Z.div_mod u 10 ltac:(lia)).
    destruct (u <? 10) eqn:Hlt.
    + apply Z.ltb_lt in Hlt. rewrite Z.mod_small by lia. cbn [Decimal.revapp].
      apply nzhead_digit_uint. lia.
    + apply Z.ltb_ge in Hlt. rewrite Nat2Z.inj_succ, Z.pow_succ_r in Hu by lia.
      apply IH. lia.
Qed.

Lemma little_digits_to_uint fuel p :
  Z.pos p < 10 ^ Z.of_nat fuel ->
  Decimal.rev (little_digits fuel (Z.pos p)) = Pos.to_uint p.
Proof.
  intros Hp.
  pose proof (Unsigned.to_of (Decimal.rev (little_digits fuel (Z.pos p)))) as Hto.
  rewrite Unsigned.of_lu_rev, of_lu_little_digits in Hto by lia.
  cbn [Z.to_N N.to_uint] in Hto. rewrite Hto. unfold Decimal.unorm, Decimal.rev.
  rewrite nzhead_little_digits by lia.
  destruct (Decimal.revapp (little_digits fuel (Z.pos p)) Decimal.Nil) eqn:Hd; try done.
  exfalso. unfold Decimal.unorm, Decimal.rev in Hto. rewrite nzhead_little_digits, Hd in Hto by lia.
  by apply (Unsigned.to_uint_nonzero p).
Qed.

Lemma formatBits_decimal p :
  Z.pos p < 10 ^ 20 ->
  formatBits 20 (Z.pos p) EmptyString = NilZero.string_of_uint (Pos.to_uint p).
Proof.
  intros Hp.
  change (formatBits 20 (Z.pos p) EmptyString)
    with (formatBits 20 (Z.pos p) (NilEmpty.string_of_uint Decimal.Nil)).
  rewrite (formatBits_little_digits 20 (Z.pos p) Decimal.Nil).
  change (Decimal.revapp ?d Decimal.Nil) with (Decimal.rev d). rewrite little_digits_to_uint by done.
  unfold NilZero.string_of_uint.
  destruct (Pos.to_uint p) eqn:Hd; try done.
  by destruct (Unsigned.to_uint_nonnil p).
Qed.

(** [FormatInt] writes the decimal numeral of the standard library. *)
Lemma FormatInt_decimal i : - 10 ^ 20 < i < 10 ^ 20 -> FormatInt i = spec.decimal i.
Proof.
  intros Hi. unfold FormatInt, spec.decimal. destruct i as [| p | p].
  - reflexivity.
  - change (Z.pos p <? 0) with false. cbn [Z.to_int NilZero.string_of_int].
    apply formatBits_decimal. lia.
  - change (Z.neg p <? 0) with true. change (- Z.neg p) with (Z.pos p).
    cbn [Z.to_int NilZero.string_of_int]. f_equal.
    apply formatBits_decimal. lia.
Qed.
End DecimalNumerals.

Section ParseFacts.
Import strconv spec.






End ParseFacts.

Section PersistenceFacts.
Import types wallet spec.

Lemma account_bytes_eq a : account_bytes a = record_of a +:+ "|".
Proof. unfold account_bytes, record_of. cbv zeta. by rewrite !string_app_assoc. Qed.

Lemma export_loop_all l : forall k file,
  export_loop l k None file = (file +:+ file_of l, None).
Proof.
  induction l as [| a l IH]; intros k file.
  - cbn [export_loop]. by rewrite string_app_nil_r.
  - cbn [export_loop file_Write]. by rewrite IH, account_bytes_eq, string_app_assoc.
Qed.

Lemma read_loop_all file : forall content,
  read_loop file content = content +:+ file.
Proof.
  assert (forall n file, (String.length file <= n)%nat ->
            forall content, read_loop file content = content +:+ file) as H.
  { induction n as [| n IH]; intros f Hlen content.
    - destruct f; [by rewrite string_app_nil_r | cbn in Hlen; lia].
    - destruct f as [| b0 [| b1 [| b2 [| b3 rest]]]];
        [by rewrite string_app_nil_r | done | done | done |].
      cbn [read_loop]. rewrite IH by (cbn in Hlen; lia).
      by rewrite string_app_assoc. }
  eauto.
Qed.

Lemma set_accounts_set_accounts s l l' :
  set_accounts (set_accounts s l) l' = set_accounts s l'.
Proof. reflexivity. Qed.

Lemma set_accounts_same s : set_accounts s (accounts s) = s.
Proof. by destruct s. Qed.

Lemma nonempty_length line :
  (Z.of_nat (String.length line) <=? 0) = negb (nonempty line).
Proof. destruct line; [done |]. cbn [String.length nonempty negb]. apply Z.leb_gt. lia. Qed.

Lemma three_fields_lookup line :
  three_fields line = true ->
  exists f0 f1 f2,
    gostrings.Split line ";" !! 0%nat = Some f0 /\
    gostrings.Split line ";" !! 1%nat = Some f1 /\
    gostrings.Split line ";" !! 2%nat = Some f2.
Proof.
  unfold three_fields. intros H%Nat.leb_le.
  destruct (gostrings.Split line ";") as [| f0 [| f1 [| f2 ?]]]; cbn in H; try lia.
  by exists f0, f1, f2.
Qed.

Lemma three_fields_lookup_None line :
  three_fields line = false -> gostrings.Split line ";" !! 2%nat = None.
Proof.
  unfold three_fields. intros H%Nat.leb_gt.
  apply lookup_ge_None. lia.
Qed.

(** What the loop over the records does, for every list of segments. *)
Lemma import_lines_spec lines : forall err s,
  import_lines lines err s =
    (set_accounts s (accounts s ++ map record_account (accepted lines)),
     if short_record lines then Panic else Return err).
Proof.
  induction lines as [| line lines IH]; intros err s.
  - cbn. by rewrite app_nil_r, set_accounts_same.
  - cbn [import_lines accepted short_record]. rewrite nonempty_length. cbv zeta.
    destruct (nonempty line); cbn [negb andb].
    + destruct (three_fields line) eqn:H3.
      * destruct (three_fields_lookup _ H3) as (f0 & f1 & f2 & H0 & H1 & H2).
        unfold Phone. rewrite H0, H2, H1, IH. cbn [map].
        rewrite set_accounts_set_accounts. cbn [accounts set_accounts].
        rewrite <- app_assoc. cbn [app].
        unfold record_account, field. by rewrite H0, H1, H2.
      * rewrite (three_fields_lookup_None _ H3).
        cbn [map]. rewrite app_nil_r, set_accounts_same.
        by destruct (gostrings.Split line ";" !! 0%nat).
    + cbn [map]. by rewrite app_nil_r, set_accounts_same.
Qed.

Lemma accepted_all lines :
  Forall (fun line => three_fields line = true) (records_before_empty lines) ->
  accepted lines = records_before_empty lines /\ short_record lines = false.
Proof.
  induction lines as [| line lines IH]; [done |].
  cbn [records_before_empty accepted short_record].
  destruct (nonempty line); [| done].
  intros [H3 Hrest]%Forall_cons. rewrite H3. cbn [andb].
  destruct (IH Hrest) as [-> ->]. done.
Qed.

Lemma ImportFromFile_spec s path fs content :
  fs !! path = Some content ->
  ImportFromFile s path fs =
    (set_accounts s
       (accounts s ++ map record_account (accepted (gostrings.Split content "|"))),
     if short_record (gostrings.Split content "|") then Panic else Return None).
Proof.
  intros Hfile. unfold ImportFromFile, Open. rewrite Hfile.
  cbn [ImportFromFile_os]. rewrite read_loop_all, string_app_nil_l.
  cbv zeta. apply import_lines_spec.
Qed.

End PersistenceFacts.

Section RoundTripFacts.
Import types wallet spec.

Lemma record_of_nonempty a : nonempty (record_of a) = true.
Proof.
  unfold record_of. by destruct (strconv.FormatInt (Account_ID a)).
Qed.

Lemma record_of_no_bar a : clean_for "|" a -> contains_byte "|" (record_of a) = false.
Proof.
  unfold clean_for, record_of. intros Hp.
  by rewrite !contains_byte_app, !FormatInt_no_bar, Hp.
Qed.

Lemma record_of_three_fields a : three_fields (record_of a) = true.
Proof.
  unfold three_fields, record_of. rewrite !string_app_byte, !Split_length.
  destruct (Split_cons ";" (strconv.FormatInt (Account_ID a))) as (? & ? & ->).
  destruct (Split_cons ";" (Account_Phone a)) as (? & ? & ->).
  destruct (Split_cons ";" (strconv.FormatInt (Account_Balance a))) as (? & ? & ->).
  apply Nat.leb_le. cbn [length]. lia.
Qed.

Lemma record_of_fields a : clean_for ";" a ->
  gostrings.Split (record_of a) ";" =
    [strconv.FormatInt (Account_ID a); Account_Phone a;
     strconv.FormatInt (Account_Balance a)].
Proof.
  unfold clean_for, record_of. intros Hp.
  by rewrite !string_app_byte, !Split_app, !Split_no_sep
    by (done || apply FormatInt_no_semicolon).
Qed.

Lemma record_account_record_of a :
  clean_for ";" a -> int64_fields a -> record_account (record_of a) = a.
Proof.
  intros Hp [Hid Hbal]. unfold record_account, field.
  rewrite record_of_fields by done.
  change (mkAccount (fst (strconv.ParseInt (strconv.FormatInt (Account_ID a))))
            (Account_Phone a)
            (fst (strconv.ParseInt (strconv.FormatInt (Account_Balance a)))) = a).
  rewrite !ParseInt_FormatInt by done. by destruct a.
Qed.

Lemma Split_file_of l : Forall (clean_for "|") l ->
  gostrings.Split (file_of l) "|" = map record_of l ++ [EmptyString].
Proof.
  induction 1 as [| a l Ha _ IH]; [done |].
  change (file_of (a :: l)) with ((record_of a +:+ "|") +:+ file_of l).
  rewrite string_app_assoc. change ("|" +:+ file_of l) with (String "|" (file_of l)).
  by rewrite Split_app, IH, Split_no_sep by by apply record_of_no_bar.
Qed.

Lemma accepted_records l (rest : list string) :
  accepted (map record_of l ++ EmptyString :: rest) = map record_of l /\
  short_record (map record_of l ++ EmptyString :: rest) = false.
Proof.
  induction l as [| a l [IH1 IH2]]; [done |].
  cbn [map app accepted short_record].
  by rewrite record_of_nonempty, record_of_three_fields, IH1, IH2.
Qed.

Lemma ExportToFile_file s path fs :
  ExportToFile s path fs = (<[path := file_of (accounts s)]> fs, None).
Proof.
  unfold ExportToFile, ExportToFile_os, getAccounts.
  by rewrite export_loop_all, string_app_nil_l.
Qed.

(** Importing what was exported appends the accounts read back from
    their own records. *)
Lemma import_export s0 s path fs :
  Forall (clean_for "|") (accounts s) ->
  ImportFromFile s0 path (fst (ExportToFile s path fs)) =
    (set_accounts s0
       (accounts s0 ++ map record_account (map record_of (accounts s))),
     Return None).
Proof.
  intros Hbar. rewrite ExportToFile_file. cbn [fst].
  rewrite (ImportFromFile_spec _ _ _ (file_of (accounts s)))
    by apply lookup_insert_eq.
  rewrite Split_file_of by done.
  by destruct (accepted_records (accounts s) []) as [-> ->].
Qed.

Lemma map_record_account_record_of l :
  Forall (clean_for ";") l -> Forall int64_fields l ->
  map record_account (map record_of l) = l.
Proof.
  induction 1 as [| a l Ha _ IH]; [done |].
  intros [Hr Hl]%Forall_cons. cbn [map].
  by rewrite record_account_record_of, IH.
Qed.

End RoundTripFacts.

Section ServiceFacts.
Import types wallet spec ledger.

Lemma list_find_alter_same {A} (P : A -> Prop) `{forall x, Decision (P x)}
    (f : A -> A) (l : list A) i x :
  (forall y, P (f y) <-> P y) ->
  list_find P l = Some (i, x) -> list_find P (alter f i l) = Some (i, f x).
Proof.
  intros Hf (Hi & HP & Hmin)%list_find_Some. apply list_find_Some.
  split_and!.
  - by rewrite list_lookup_alter_eq, Hi.
  - by apply Hf.
  - intros j y Hj Hlt. rewrite list_lookup_alter_ne in Hj by lia. eauto.
Qed.

Lemma FindAccountByID_Ok s accountID i a :
  FindAccountByID s accountID = Ok (i, a) <->
  list_find (fun x => Account_ID x = accountID) (accounts s) = Some (i, a).
Proof.
  unfold FindAccountByID. destruct (list_find _ _) as [[] |]; split; congruence.
Qed.

Lemma FindPaymentByID_Ok s paymentID i p :
  FindPaymentByID s paymentID = Ok (i, p) <->
  list_find (fun x => Payment_ID x = paymentID) (payments s) = Some (i, p).
Proof.
  unfold FindPaymentByID. destruct (list_find _ _) as [[] |]; split; congruence.
Qed.

Lemma FindAccountByID_lookup s accountID i a :
  FindAccountByID s accountID = Ok (i, a) ->
  accounts s !! i = Some a /\ Account_ID a = accountID.
Proof. intros (? & ? & _)%FindAccountByID_Ok%list_find_Some. done. Qed.

(** What [Reject] does when both lookups succeed. *)
Lemma Reject_found s paymentID pp p ap a :
  FindPaymentByID s paymentID = Ok (pp, p) ->
  FindAccountByID s (Payment_AccountID p) = Ok (ap, a) ->
  Reject s paymentID =
    (mkService (nextAccountID s)
       (alter (credit (Payment_Amount p)) ap (accounts s))
       (alter (set_status PaymentStatusFail) pp (payments s))
       (favorites s),
     None).
Proof. intros Hp Ha. unfold Reject. by rewrite Hp, Ha. Qed.

Lemma Reject_lookups s paymentID pp p ap a :
  FindPaymentByID s paymentID = Ok (pp, p) ->
  FindAccountByID s (Payment_AccountID p) = Ok (ap, a) ->
  FindPaymentByID (fst (Reject s paymentID)) paymentID
    = Ok (pp, set_status PaymentStatusFail p) /\
  FindAccountByID (fst (Reject s paymentID)) (Payment_AccountID p)
    = Ok (ap, credit (Payment_Amount p) a).
Proof.
  intros Hp Ha. rewrite (Reject_found _ _ _ _ _ _ Hp Ha). cbn [fst].
  split.
  - apply FindPaymentByID_Ok. cbn [payments].
    apply list_find_alter_same; [done | by apply FindPaymentByID_Ok].
  - apply FindAccountByID_Ok. cbn [accounts].
    apply list_find_alter_same; [done | by apply FindAccountByID_Ok].
Qed.

End ServiceFacts.

(** * The claims *)

Section Persistence.
Import types wallet spec.

Lemma records_before_empty_three_fields l (rest : list string) :
  Forall (fun line => three_fields line = true)
         (records_before_empty (map record_of l ++ EmptyString :: rest)).
Proof.
  induction l as [| a l IH]; [by constructor |].
  cbn [map app records_before_empty]. rewrite record_of_nonempty.
  constructor; [apply record_of_three_fields | done].
Qed.

Lemma record_of_written a : int64_fields a -> record_of a = written_record a.
Proof.
  unfold int64_fields, int64.in_range, int64.min_int64, int64.max_int64.
  intros [Hid Hbal]. unfold record_of, written_record.
  rewrite !FormatInt_decimal; [done | |];
    change (2 ^ 63) with 9223372036854775808 in *;
    change (10 ^ 20) with 100000000000000000000; lia.
Qed.

Lemma file_of_written l : Forall int64_fields l -> file_of l = written_file l.
Proof.
  induction 1 as [| a l Ha _ IH]; [done |].
  change (file_of (a :: l)) with ((record_of a +:+ "|") +:+ file_of l).
  cbn [written_file]. by rewrite IH, record_of_written, string_app_assoc.
Qed.

Lemma written_file_snoc l a :
  written_file (l ++ [a]) = written_file l +:+ written_record a +:+ "|".
Proof.
  induction l as [| b l IH]; cbn [app written_file].
  - by rewrite string_app_nil_l.
  - by rewrite IH, !string_app_assoc.
Qed.

(** The file after a call that reports no error. *)
Lemma export_loop_success fault l : forall k file file',
  export_loop l k fault file = (file', None) -> file' = file +:+ file_of l.
Proof.
  induction l as [| a l IH]; intros k file file'; cbn [export_loop].
  - intros [= <-]. by rewrite string_app_nil_r.
  - unfold file_Write. destruct fault as [[[k' n] err] |].
    + destruct (Nat.eqb k k'); [done |].
      intros ->%IH. by rewrite account_bytes_eq, string_app_assoc.
    + intros ->%IH. by rewrite account_bytes_eq, string_app_assoc.
Qed.

(** C4: the bytes [ExportToFile] writes to [path] are, for each account in
    collection order, the decimal numeral of its ID, [";"], its phone,
    [";"], the decimal numeral of its balance, and one ["|"], and nothing
    else.  So is the file after any call that returns no error, whatever
    the operating system answered.  The file of a collection that ends
    with the account [a] ends with the record of [a] and its delimiter. *)
Theorem ExportToFile_writes_records s path fs :
  Forall int64_fields (accounts s) ->
  fst (ExportToFile s path fs) !! path = Some (written_file (accounts s)) /\
  (forall answer,
     snd (ExportToFile_os answer s path fs) = None ->
     fst (ExportToFile_os answer s path fs) !! path
     = Some (written_file (accounts s))) /\
  (forall l a,
     accounts s = l ++ [a] ->
     fst (ExportToFile s path fs) !! path
     = Some (written_file l +:+ written_record a +:+ "|")).
Proof.
  intros Hrange. rewrite ExportToFile_file, file_of_written by done. cbn [fst].
  split_and!.
  - apply lookup_insert_eq.
  - intros [err | fault]; cbn [ExportToFile_os]; [done |]. unfold getAccounts.
    destruct (export_loop (accounts s) 0 fault EmptyString) as [file err] eqn:Hloop.
    cbn [fst snd]. intros ->. apply export_loop_success in Hloop as ->.
    rewrite string_app_nil_l, file_of_written by done. apply lookup_insert_eq.
  - intros l a ->. rewrite written_file_snoc. apply lookup_insert_eq.
Qed.

Lemma ExportToFile_writes_records_witness :
  let s := mkService 2 [mkAccount 1 "+992000000001" 500;
                        mkAccount 2 "+992000000002" (-30)] [] [] in
  fst (ExportToFile s "accounts.txt" ∅) !! "accounts.txt"
  = Some "1;+992000000001;500|2;+992000000002;-30|".
Proof.
  intros s.
  rewrite (proj1 (ExportToFile_writes_records s "accounts.txt" ∅
                    ltac:(repeat constructor; vm_compute; congruence))).
  reflexivity.
Defined.

(** C3: exporting the accounts of a service and importing the file into a
    fresh service gives back the same accounts, field for field and in the
    same order, when no phone holds [";"] or ["|"] (the ID and the balance
    being int64 values, as their Go type says). *)
Theorem export_import_round_trip s path fs :
  Forall (fun a => clean_for ";" a /\ clean_for "|" a) (accounts s) ->
  Forall int64_fields (accounts s) ->
  ImportFromFile empty path (fst (ExportToFile s path fs))
  = (set_accounts empty (accounts s), Return None).
Proof.
  intros Hclean Hrange.
  assert (Forall (clean_for "|") (accounts s)) as Hbar
    by (apply (Forall_impl _ _ _ Hclean); tauto).
  assert (Forall (clean_for ";") (accounts s)) as Hsemi
    by (apply (Forall_impl _ _ _ Hclean); tauto).
  rewrite import_export by done.
  by rewrite map_record_account_record_of.
Qed.

Lemma export_import_round_trip_witness :
  let s := mkService 2 [mkAccount 1 "+992000000001" 500;
                        mkAccount 2 "+992000000002" 0] [] [] in
  accounts (fst (ImportFromFile empty "accounts.txt"
                   (fst (ExportToFile s "accounts.txt" ∅)))) = accounts s.
Proof.
  intros s. rewrite (export_import_round_trip s "accounts.txt" ∅).
  - reflexivity.
  - repeat constructor.
  - repeat constructor; vm_compute; congruence.
Defined.

(** C6 (as amended): [ImportFromFile] is additive.  When every record in
    front of the first empty segment has at least three fields, the call
    appends one account per such record, built from its fields 0, 1 and 2,
    to whatever accounts there were, which stay as they are; no phone or ID
    is compared with an existing one, the records behind the first empty
    segment are not read, and the rest of the service is unchanged. *)
Theorem ImportFromFile_additive s path fs content :
  fs !! path = Some content ->
  Forall (fun line => three_fields line = true)
         (records_before_empty (gostrings.Split content "|")) ->
  ImportFromFile s path fs
  = (mkService (nextAccountID s)
       (accounts s ++
        map record_account (records_before_empty (gostrings.Split content "|")))
       (payments s) (favorites s),
     Return None).
Proof.
  intros Hfile Hthree. rewrite (ImportFromFile_spec _ _ _ _ Hfile).
  by destruct (accepted_all _ Hthree) as [-> ->].
Qed.

Lemma ImportFromFile_additive_witness :
  accounts (fst (ImportFromFile (mkService 1 [mkAccount 1 "p" 10] [] []) "f"
                   {["f" := "1;p;-5|2;q;7||3;r;9"]}))
  = [mkAccount 1 "p" 10; mkAccount 1 "p" (-5); mkAccount 2 "q" 7].
Proof.
  rewrite (ImportFromFile_additive _ "f" _ "1;p;-5|2;q;7||3;r;9").
  - reflexivity.
  - apply lookup_insert_eq.
  - repeat constructor.
Defined.

(** A record with fewer than three fields: the call panics at [item[2]]
    and appends nothing for it, although the record is not empty. *)
Lemma ImportFromFile_additive_counterexample :
  gostrings.Split "x" "|" = ["x"] /\
  ImportFromFile empty "f" {["f" := "x"]} = (empty, Panic).
Proof. split; [reflexivity |]. by rewrite (ImportFromFile_spec _ _ _ "x"). Qed.

(** C9 (as amended): once the file is opened and read, [ImportFromFile]
    returns the nil error that the successful [os.Open] left in [err],
    whenever every record in front of the first empty segment has at least
    three fields, whether the content ends with ["|"] or not.  What
    [ExportToFile] writes is such a content as soon as no phone holds
    ["|"]. *)
Theorem ImportFromFile_returns_nil :
  (forall s path fs content,
     fs !! path = Some content ->
     Forall (fun line => three_fields line = true)
            (records_before_empty (gostrings.Split content "|")) ->
     snd (ImportFromFile s path fs) = Return None) /\
  (forall s0 s path fs,
     Forall (clean_for "|") (accounts s) ->
     snd (ImportFromFile s0 path (fst (ExportToFile s path fs))) = Return None).
Proof.
  split.
  - intros s path fs content Hfile Hthree.
    rewrite (ImportFromFile_spec _ _ _ _ Hfile).
    by destruct (accepted_all _ Hthree) as [_ ->].
  - intros s0 s path fs Hbar. by rewrite import_export.
Qed.

Lemma ImportFromFile_returns_nil_witness :
  snd (ImportFromFile empty "f" {["f" := "1;p;5|2;q;7|"]}) = Return None /\
  snd (ImportFromFile empty "f"
         (fst (ExportToFile (mkService 1 [mkAccount 1 "a;b" 5] [] []) "f" ∅)))
  = Return None.
Proof.
  split.
  - apply (proj1 ImportFromFile_returns_nil empty "f" _ "1;p;5|2;q;7|").
    + apply lookup_insert_eq.
    + repeat constructor.
  - apply (proj2 ImportFromFile_returns_nil). repeat constructor.
Defined.

(** A content that ends with ["|"], and the export of a service whose one
    account was registered with the phone ["|"]: both make the call panic. *)
Lemma ImportFromFile_returns_nil_counterexample :
  snd (ImportFromFile empty "f" {["f" := "x|"]}) = Panic /\
  (let s := fst (RegisterAccount empty "|") in
   fst (ExportToFile s "f" ∅) !! "f" = Some "1;|;0|" /\
   snd (ImportFromFile empty "f" (fst (ExportToFile s "f" ∅))) = Panic).
Proof.
  split; [by rewrite (ImportFromFile_spec _ _ _ "x|") |].
  cbv zeta. rewrite ExportToFile_file. cbn [fst].
  split; [apply lookup_insert_eq |].
  by rewrite (ImportFromFile_spec _ _ _ "1;|;0|") by apply lookup_insert_eq.
Qed.





End Persistence.

Section Payments.
Import types wallet spec ledger.

Lemma debit_nonneg amount a :
  int64.in_range (Account_Balance a) -> 0 < amount -> amount <= Account_Balance a ->
  Account_Balance (debit amount a) = Account_Balance a - amount.
Proof.
  intros Hr Hpos Hle. cbn [debit Account_Balance]. apply wrap_in_range.
  unfold int64.in_range, int64.min_int64, int64.max_int64 in *. lia.
Qed.

(** The state a successful [Pay] leaves. *)
Lemma Pay_cases s accountID amount category uuid :
  fst (Pay s accountID amount category uuid) = s \/
  exists i a,
    accounts s !! i = Some a /\ 0 < amount /\ amount <= Account_Balance a /\
    fst (Pay s accountID amount category uuid)
    = mkService (nextAccountID s) (alter (debit amount) i (accounts s))
        (payments s ++
         [mkPayment uuid accountID amount category PaymentStatusInProgress])
        (favorites s).
Proof.
  unfold Pay. destruct (amount <=? 0) eqn:Hpos; [by left |].
  destruct (FindAccountByID s accountID) as [[i a] | e] eqn:Hfind; [| by left].
  destruct (Account_Balance a <? amount) eqn:Hbal; [by left |].
  right. exists i, a. apply Z.leb_gt in Hpos. apply Z.ltb_ge in Hbal.
  by destruct (FindAccountByID_lookup _ _ _ _ Hfind).
Qed.

(** C1 (as amended): for the account that [FindAccountByID] gives for
    [accountID], a positive [amount] above its balance makes [Pay] return
    [ErrNotEnoughBalance] and leave the service as it was (balance and
    payments included); an [amount] that is not positive is refused before
    any balance is looked at, with [ErrAmountMustBePositive].  No call of
    [Pay] turns a balance that is not negative into a negative one. *)
Theorem Pay_not_enough_balance :
  (forall s accountID amount category uuid i a,
     FindAccountByID s accountID = Ok (i, a) ->
     0 < amount -> Account_Balance a < amount ->
     Pay s accountID amount category uuid = (s, Err ErrNotEnoughBalance)) /\
  (forall s accountID amount category uuid,
     amount <= 0 ->
     Pay s accountID amount category uuid = (s, Err ErrAmountMustBePositive)) /\
  (forall s accountID amount category uuid j b,
     accounts s !! j = Some b ->
     int64.in_range (Account_Balance b) -> 0 <= Account_Balance b ->
     exists b',
       accounts (fst (Pay s accountID amount category uuid)) !! j = Some b' /\
       0 <= Account_Balance b' <= Account_Balance b).
Proof.
  split_and!.
  - intros s accountID amount category uuid i a Hfind Hpos Hbal.
    unfold Pay. rewrite Hfind.
    cmp_false (amount <=? 0). by cmp_true (Account_Balance a <? amount).
  - intros s accountID amount category uuid Hle.
    unfold Pay. by cmp_true (amount <=? 0).
  - intros s accountID amount category uuid j b Hj Hr Hb.
    destruct (Pay_cases s accountID amount category uuid)
      as [-> | (i & a & Hi & Hpos & Hle & ->)]; [exists b; split; [done | lia] |].
    cbn [fst accounts]. rewrite list_lookup_alter.
    destruct (decide (i = j)) as [-> |]; [| exists b; split; [done | lia]].
    rewrite Hi in Hj. injection Hj as ->. rewrite Hi. cbn [fmap option_fmap option_map].
    exists (debit amount b). split; [done |]. rewrite debit_nonneg by done. lia.
Qed.

Lemma Pay_not_enough_balance_witness :
  let s := mkService 1 [mkAccount 1 "p" 100] [] [] in
  Pay s 1 101 "food" "u" = (s, Err ErrNotEnoughBalance).
Proof.
  intros s.
  apply (proj1 Pay_not_enough_balance s 1 101 "food" "u" 0%nat (mkAccount 1 "p" 100)).
  - reflexivity.
  - lia.
  - cbn. lia.
Defined.

(** A balance of -5, imported from a file, and the amount -3, which is
    above it: [Pay] answers [ErrAmountMustBePositive]. *)
Lemma Pay_not_enough_balance_counterexample :
  let s := fst (ImportFromFile empty "f" {["f" := "1;p;-5|"]}) in
  FindAccountByID s 1 = Ok (0%nat, mkAccount 1 "p" (-5)) /\
  -3 > Account_Balance (mkAccount 1 "p" (-5)) /\
  Pay s 1 (-3) "food" "u" = (s, Err ErrAmountMustBePositive).
Proof.
  cbv zeta. rewrite (ImportFromFile_spec _ _ _ "1;p;-5|") by apply lookup_insert_eq.
  split_and!; [reflexivity | cbn; lia | reflexivity].
Qed.

(** C2 (as amended): when [Reject] finds the payment and its account, it
    succeeds, whatever the status of the payment was; the payment is then
    found with the status [PaymentStatusFail], and the account with the
    amount of the payment added to its balance in int64 arithmetic: the
    balance has grown by exactly the amount if that sum is an int64, and
    has wrapped around if not.  A second [Reject] succeeds as well and
    leaves the balance grown by exactly twice the amount, if that sum is an
    int64. *)
Theorem Reject_refunds s paymentID pp p ap a :
  FindPaymentByID s paymentID = Ok (pp, p) ->
  FindAccountByID s (Payment_AccountID p) = Ok (ap, a) ->
  let s1 := fst (Reject s paymentID) in
  let s2 := fst (Reject s1 paymentID) in
  let failed := mkPayment (Payment_ID p) (Payment_AccountID p) (Payment_Amount p)
                  (Payment_Category p) PaymentStatusFail in
  snd (Reject s paymentID) = None /\
  FindPaymentByID s1 paymentID = Ok (pp, failed) /\
  FindAccountByID s1 (Payment_AccountID p)
  = Ok (ap, mkAccount (Account_ID a) (Account_Phone a)
              (int64.wrap (Account_Balance a + Payment_Amount p))) /\
  (int64.in_range (Account_Balance a + Payment_Amount p) ->
   FindAccountByID s1 (Payment_AccountID p)
   = Ok (ap, mkAccount (Account_ID a) (Account_Phone a)
               (Account_Balance a + Payment_Amount p))) /\
  snd (Reject s1 paymentID) = None /\
  FindPaymentByID s2 paymentID = Ok (pp, failed) /\
  FindAccountByID s2 (Payment_AccountID p)
  = Ok (ap, mkAccount (Account_ID a) (Account_Phone a)
              (int64.wrap (Account_Balance a + 2 * Payment_Amount p))) /\
  (int64.in_range (Account_Balance a + 2 * Payment_Amount p) ->
   FindAccountByID s2 (Payment_AccountID p)
   = Ok (ap, mkAccount (Account_ID a) (Account_Phone a)
               (Account_Balance a + 2 * Payment_Amount p))).
Proof.
  intros Hp Ha s1 s2 failed.
  destruct (Reject_lookups _ _ _ _ _ _ Hp Ha) as [Hp1 Ha1].
  fold s1 in Hp1, Ha1.
  pose proof (Reject_lookups s1 paymentID _ _ _ _ Hp1 Ha1) as [Hp2 Ha2].
  fold s2 in Hp2, Ha2.
  assert (FindAccountByID s2 (Payment_AccountID p)
          = Ok (ap, mkAccount (Account_ID a) (Account_Phone a)
                      (int64.wrap (Account_Balance a + 2 * Payment_Amount p))))
    as Ha2'.
  { etrans; [exact Ha2 |]. unfold credit, int64.add.
    cbn [Account_ID Account_Phone Account_Balance set_status Payment_Amount].
    rewrite wrap_wrap_add.
    by replace (Account_Balance a + Payment_Amount p + Payment_Amount p)
      with (Account_Balance a + 2 * Payment_Amount p) by lia. }
  split_and!.
  - by rewrite (Reject_found _ _ _ _ _ _ Hp Ha).
  - exact Hp1.
  - exact Ha1.
  - intros Hr. rewrite Ha1. unfold credit, int64.add. by rewrite wrap_in_range.
  - by rewrite (Reject_found s1 _ _ _ _ _ Hp1 Ha1).
  - exact Hp2.
  - exact Ha2'.
  - intros Hr. by rewrite Ha2', wrap_in_range.
Qed.

Lemma Reject_refunds_witness :
  let s := mkService 1 [mkAccount 1 "p" 800]
             [mkPayment "u1" 1 200 "food" PaymentStatusFail] [] in
  FindAccountByID (fst (Reject s "u1")) 1 = Ok (0%nat, mkAccount 1 "p" 1000) /\
  FindAccountByID (fst (Reject (fst (Reject s "u1")) "u1")) 1
  = Ok (0%nat, mkAccount 1 "p" 1200).
Proof.
  intros s.
  pose proof (Reject_refunds s "u1" 0%nat
                (mkPayment "u1" 1 200 "food" PaymentStatusFail)
                0%nat (mkAccount 1 "p" 800) eq_refl eq_refl) as H.
  cbv zeta in H. destruct H as (_ & _ & _ & H1 & _ & _ & _ & H2).
  split; [apply H1 | apply H2]; by vm_compute.
Defined.

(** A balance at the largest int64, reached without any overflow by a
    registration, a deposit, a payment of 7 and a deposit of 7: rejecting
    the payment does not add 7 to it, it leaves the balance negative. *)
Lemma Reject_refunds_counterexample :
  let s0 := fst (RegisterAccount empty "p") in
  let s1 := fst (Deposit s0 1 9223372036854775807) in
  let s2 := fst (Pay s1 1 7 "food" "u") in
  let s3 := fst (Deposit s2 1 7) in
  FindPaymentByID s3 "u"
  = Ok (0%nat, mkPayment "u" 1 7 "food" PaymentStatusInProgress) /\
  FindAccountByID s3 1 = Ok (0%nat, mkAccount 1 "p" 9223372036854775807) /\
  snd (Reject s3 "u") = None /\
  FindAccountByID (fst (Reject s3 "u")) 1
  = Ok (0%nat, mkAccount 1 "p" (-9223372036854775802)) /\
  -9223372036854775802 <> 9223372036854775807 + 7.
Proof. cbv zeta. split_and!; [reflexivity .. | lia]. Qed.

End Payments.

Section Accounts.
Import types wallet spec ledger.

Lemma RegisterAccount_taken s phone :
  Exists (fun a => Account_Phone a = phone) (accounts s) ->
  RegisterAccount s phone = (s, Err ErrPhoneRegistered).
Proof.
  intros (a & Hin & Hphone)%Exists_exists. unfold RegisterAccount.
  by destruct (list_find_elem_of (fun a => Account_Phone a = phone) _ a Hin Hphone)
    as [found ->].
Qed.

Lemma RegisterAccount_fresh s phone :
  Forall (fun a => Account_Phone a <> phone) (accounts s) ->
  RegisterAccount s phone
  = (mkService (int64.add (nextAccountID s) 1)
       (accounts s ++ [mkAccount (int64.add (nextAccountID s) 1) phone 0])
       (payments s) (favorites s),
     Ok (length (accounts s), mkAccount (int64.add (nextAccountID s) 1) phone 0)).
Proof.
  intros Hfresh. unfold RegisterAccount.
  by rewrite (proj2 (list_find_None (fun a => Account_Phone a = phone) _) Hfresh).
Qed.

(** A call of [RegisterAccount] either fails and changes nothing, or
    appends one account. *)
Lemma RegisterAccount_cases s phone :
  RegisterAccount s phone = (s, Err ErrPhoneRegistered) \/
  RegisterAccount s phone
  = (mkService (int64.add (nextAccountID s) 1)
       (accounts s ++ [mkAccount (int64.add (nextAccountID s) 1) phone 0])
       (payments s) (favorites s),
     Ok (length (accounts s), mkAccount (int64.add (nextAccountID s) 1) phone 0)).
Proof.
  unfold RegisterAccount. destruct (list_find _ _); [by left | by right].
Qed.

Lemma RegisterAccount_sequential s phone :
  sequential s -> Z.of_nat (length (accounts s)) < int64.max_int64 ->
  sequential (fst (RegisterAccount s phone)) /\
  (length (accounts (fst (RegisterAccount s phone))) <= S (length (accounts s)))%nat.
Proof.
  intros [Hnext Hids] Hroom.
  destruct (RegisterAccount_cases s phone) as [-> | ->]; cbn [fst].
  - split; [done | lia].
  - assert (int64.add (nextAccountID s) 1 = Z.of_nat (S (length (accounts s)))) as Hid.
    { unfold int64.add. rewrite wrap_in_range; [lia |].
      unfold int64.in_range, int64.min_int64, int64.max_int64 in *. lia. }
    split; [| cbn [accounts]; rewrite length_app; cbn; lia].
    unfold sequential. cbn [accounts nextAccountID].
    rewrite length_app, Nat.add_1_r. split; [done |].
    rewrite seq_S, !map_app, Hids. cbn [map Account_ID]. by rewrite Hid.
Qed.

Lemma register_all_sequential phones : forall s,
  sequential s ->
  Z.of_nat (length (accounts s) + length phones) <= int64.max_int64 ->
  sequential (register_all phones s).
Proof.
  induction phones as [| phone phones IH]; intros s Hs Hroom; [done |].
  cbn [register_all foldl]. cbn [length] in Hroom.
  destruct (RegisterAccount_sequential s phone Hs ltac:(lia)) as [Hs' Hlen].
  apply IH; [done | lia].
Qed.

(** C7: [RegisterAccount] returns [ErrPhoneRegistered] and leaves the
    service as it was when an account has the phone; otherwise it appends,
    and returns, an account with balance 0 whose ID is the counter after its
    increment, the new value of the counter.  Starting from the fresh
    service, any series of registrations therefore numbers the accounts
    1, 2, ... in order, the counter being the number of registrations that
    succeeded. *)
Theorem RegisterAccount_sequential_ids :
  (forall s phone,
     Exists (fun a => Account_Phone a = phone) (accounts s) ->
     RegisterAccount s phone = (s, Err ErrPhoneRegistered)) /\
  (forall s phone,
     Forall (fun a => Account_Phone a <> phone) (accounts s) ->
     RegisterAccount s phone
     = (mkService (int64.add (nextAccountID s) 1)
          (accounts s ++ [mkAccount (int64.add (nextAccountID s) 1) phone 0])
          (payments s) (favorites s),
        Ok (length (accounts s),
            mkAccount (int64.add (nextAccountID s) 1) phone 0))) /\
  (forall phone,
     fst (RegisterAccount empty phone)
     = mkService 1 [mkAccount 1 phone 0] [] []) /\
  (forall phones,
     Z.of_nat (length phones) <= int64.max_int64 ->
     let s := register_all phones empty in
     nextAccountID s = Z.of_nat (length (accounts s)) /\
     map Account_ID (accounts s) = map Z.of_nat (seq 1 (length (accounts s)))).
Proof.
  split_and!.
  - apply RegisterAccount_taken.
  - apply RegisterAccount_fresh.
  - done.
  - intros phones Hroom. by apply register_all_sequential.
Qed.

Lemma RegisterAccount_sequential_ids_witness :
  RegisterAccount (mkService 1 [mkAccount 1 "a" 7] [] []) "a"
  = (mkService 1 [mkAccount 1 "a" 7] [] [], Err ErrPhoneRegistered) /\
  map Account_ID (accounts (register_all ["a"; "b"; "a"; "c"] empty)) = [1; 2; 3].
Proof.
  split.
  - apply (proj1 RegisterAccount_sequential_ids). repeat constructor.
  - pose proof (proj2 (proj2 (proj2 RegisterAccount_sequential_ids))
                  ["a"; "b"; "a"; "c"]) as H.
    cbv zeta in H. destruct H as [_ ->]; [by vm_compute | reflexivity].
Defined.

Lemma Deposit_error s accountID amount s' e :
  Deposit s accountID amount = (s', Some e) -> s' = s.
Proof.
  unfold Deposit. destruct (amount <=? 0); [congruence |].
  destruct (list_find _ _) as [[] |]; congruence.
Qed.

(** C8: [AddAccountWithBalance] answers a failed registration with
    [ErrCannotRegisterAccount] and a failed deposit with
    [ErrCannotDepositAccount], whatever the error underneath was.  After a
    failed deposit, as with a balance that is not positive, the account just
    registered is still the last of the collection. *)
Theorem AddAccountWithBalance_masks_errors s phone balance :
  (forall e,
     snd (RegisterAccount s phone) = Err e ->
     AddAccountWithBalance s phone balance = (s, Err ErrCannotRegisterAccount)) /\
  (forall s1 i a e,
     RegisterAccount s phone = (s1, Ok (i, a)) ->
     snd (Deposit s1 (Account_ID a) balance) = Some e ->
     AddAccountWithBalance s phone balance = (s1, Err ErrCannotDepositAccount) /\
     accounts s1 = accounts s ++ [a]) /\
  (Forall (fun a => Account_Phone a <> phone) (accounts s) ->
   balance <= 0 ->
   AddAccountWithBalance s phone balance
   = (mkService (int64.add (nextAccountID s) 1)
        (accounts s ++ [mkAccount (int64.add (nextAccountID s) 1) phone 0])
        (payments s) (favorites s),
      Err ErrCannotDepositAccount)).
Proof.
  split_and!.
  - intros e He. unfold AddAccountWithBalance.
    destruct (RegisterAccount_cases s phone) as [Hr | Hr]; rewrite Hr in *; done.
  - intros s1 i a e Hreg Hdep. unfold AddAccountWithBalance. rewrite Hreg.
    destruct (Deposit s1 (Account_ID a) balance) as [s2 [e' |]] eqn:Hd; [| done].
    apply Deposit_error in Hd as ->. split; [done |].
    destruct (RegisterAccount_cases s phone) as [Hr | Hr]; rewrite Hr in Hreg;
      [done | by injection Hreg as <- <- <-].
  - intros Hfresh Hle. unfold AddAccountWithBalance.
    rewrite RegisterAccount_fresh by done. unfold Deposit.
    by cmp_true (balance <=? 0).
Qed.

Lemma AddAccountWithBalance_masks_errors_witness :
  AddAccountWithBalance (mkService 1 [mkAccount 1 "a" 7] [] []) "a" 5
  = (mkService 1 [mkAccount 1 "a" 7] [] [], Err ErrCannotRegisterAccount) /\
  AddAccountWithBalance (mkService 1 [mkAccount 1 "a" 7] [] []) "b" 0
  = (mkService 2 [mkAccount 1 "a" 7; mkAccount 2 "b" 0] [] [],
     Err ErrCannotDepositAccount).
Proof.
  split.
  - apply (proj1 (AddAccountWithBalance_masks_errors _ "a" 5) ErrPhoneRegistered).
    reflexivity.
  - apply (proj2 (proj2 (AddAccountWithBalance_masks_errors
                           (mkService 1 [mkAccount 1 "a" 7] [] []) "b" 0))).
    + repeat constructor; cbn; congruence.
    + lia.
Defined.

End Accounts.

Section Invariant.
Import types wallet spec ledger.

Lemma credit_sound amount a :
  0 <= Account_Balance a <= int64.max_int64 -> 0 < amount ->
  Account_Balance a + amount <= int64.max_int64 ->
  0 <= Account_Balance (credit amount a) <= int64.max_int64.
Proof.
  intros Hb Hpos Hfit. cbn [credit Account_Balance]. unfold int64.add.
  rewrite wrap_in_range; [lia |].
  unfold int64.in_range, int64.min_int64, int64.max_int64 in *. lia.
Qed.

Lemma sound_credit s accountID amount i a :
  sound s -> FindAccountByID s accountID = Ok (i, a) -> 0 < amount ->
  credit_fits s accountID amount ->
  Forall (fun a => 0 <= Account_Balance a <= int64.max_int64)
         (alter (credit amount) i (accounts s)).
Proof.
  intros [Hacc _] Hfind Hpos Hfit.
  apply Forall_alter; [done |]. intros x Hx Hb.
  destruct (FindAccountByID_lookup _ _ _ _ Hfind) as [Hi _].
  rewrite Hi in Hx. injection Hx as <-.
  apply credit_sound; [done | done | by eapply Hfit].
Qed.

Lemma sound_RegisterAccount s phone :
  sound s -> sound (fst (RegisterAccount s phone)).
Proof.
  intros [Hacc Hpay].
  destruct (RegisterAccount_cases s phone) as [-> | ->]; [done |].
  split; [| done]. cbn [fst accounts]. apply Forall_app. split; [done |].
  repeat constructor; cbn [Account_Balance]; [lia | by vm_compute].
Qed.

Lemma sound_Deposit s accountID amount :
  sound s -> credit_fits s accountID amount ->
  sound (fst (Deposit s accountID amount)).
Proof.
  intros Hs Hfit. unfold Deposit.
  destruct (amount <=? 0) eqn:Hpos; [done |]. apply Z.leb_gt in Hpos.
  destruct (list_find _ _) as [[i a] |] eqn:Hfind; [| done].
  apply FindAccountByID_Ok in Hfind.
  split; [by eapply sound_credit | apply Hs].
Qed.

Lemma sound_Pay s accountID amount category uuid :
  sound s -> sound (fst (Pay s accountID amount category uuid)).
Proof.
  intros [Hacc Hpay].
  destruct (Pay_cases s accountID amount category uuid)
    as [-> | (i & a & Hi & Hpos & Hle & ->)]; [done |].
  split; cbn [fst accounts payments].
  - apply Forall_alter; [done |]. intros x Hx Hb.
    rewrite Hi in Hx. injection Hx as <-.
    rewrite debit_nonneg; [lia | | done | done].
    unfold int64.in_range, int64.min_int64, int64.max_int64 in *. lia.
  - apply Forall_app. split; [done |]. by repeat constructor.
Qed.

Lemma sound_Reject s paymentID :
  sound s ->
  (forall i p, FindPaymentByID s paymentID = Ok (i, p) ->
               credit_fits s (Payment_AccountID p) (Payment_Amount p)) ->
  sound (fst (Reject s paymentID)).
Proof.
  intros Hs Hfit. unfold Reject.
  destruct (FindPaymentByID s paymentID) as [[pp p] | e] eqn:Hp; [| done].
  destruct (FindAccountByID s (Payment_AccountID p)) as [[ap a] | e] eqn:Ha; [| done].
  assert (0 < Payment_Amount p) as Hpos.
  { apply FindPaymentByID_Ok, list_find_Some in Hp as (Hpp & _ & _).
    destruct Hs as [_ Hpay]. by apply (Forall_lookup_1 _ _ _ _ Hpay Hpp). }
  split; cbn [fst accounts payments set_accounts set_payments].
  - eapply sound_credit; eauto.
  - apply Forall_alter; [apply Hs | done].
Qed.

Lemma sound_AddAccountWithBalance s phone balance :
  sound s ->
  (forall s1 i a, RegisterAccount s phone = (s1, Ok (i, a)) ->
                  credit_fits s1 (Account_ID a) balance) ->
  sound (fst (AddAccountWithBalance s phone balance)).
Proof.
  intros Hs Hfit. unfold AddAccountWithBalance.
  pose proof (sound_RegisterAccount s phone Hs) as Hs1.
  destruct (RegisterAccount s phone) as [s1 [[i a] | e]] eqn:Hreg; [| done].
  cbn [fst] in Hs1.
  pose proof (sound_Deposit s1 (Account_ID a) balance Hs1 (Hfit _ _ _ eq_refl)) as Hs2.
  by destruct (Deposit s1 (Account_ID a) balance) as [s2 [e |]].
Qed.

Lemma sound_Repeat s paymentID uuid :
  sound s -> sound (fst (Repeat s paymentID uuid)).
Proof.
  intros Hs. unfold Repeat.
  destruct (FindPaymentByID s paymentID) as [[i p] | e]; [| done].
  pose proof (sound_Pay s (Payment_AccountID p) (Payment_Amount p)
                (Payment_Category p) uuid Hs) as Hs1.
  by destruct (Pay _ _ _ _ _) as [s1 [|]].
Qed.

Lemma sound_PayFromFavorite s favoriteID uuid :
  sound s -> sound (fst (PayFromFavorite s favoriteID uuid)).
Proof.
  intros Hs. unfold PayFromFavorite.
  destruct (FindFavoriteByID s favoriteID) as [[i f] | e]; [| done].
  pose proof (sound_Pay s (Favorite_AccountID f) (Favorite_Amount f)
                (Favorite_Category f) uuid Hs) as Hs1.
  by destruct (Pay _ _ _ _ _) as [s1 [|]].
Qed.

Lemma sound_FavoritePayment s paymentID name uuid :
  sound s -> sound (fst (FavoritePayment s paymentID name uuid)).
Proof.
  intros Hs. unfold FavoritePayment.
  by destruct (FindPaymentByID s paymentID) as [[i p] | e].
Qed.

Lemma sound_ImportFromFile s path fs :
  sound s ->
  (forall content, fs !! path = Some content ->
     Forall (fun line => 0 <= Account_Balance (record_account line))
            (accepted (gostrings.Split content "|"))) ->
  sound (fst (ImportFromFile s path fs)).
Proof.
  intros [Hacc Hpay] Hsafe.
  destruct (fs !! path) as [content |] eqn:Hfile.
  - rewrite (ImportFromFile_spec _ _ _ _ Hfile). split; [| done].
    cbn [fst accounts set_accounts]. apply Forall_app. split; [done |].
    apply Forall_fmap. specialize (Hsafe _ eq_refl).
    eapply Forall_impl; [exact Hsafe |]. intros line Hline. cbn.
    split; [done |]. apply ParseInt_in_range.
  - unfold ImportFromFile, Open. by rewrite Hfile.
Qed.

Lemma exec_sound o w : sound (svc w) -> safe o w -> sound (svc (exec o w)).
Proof.
  intros Hs Hsafe. destruct o; cbn [exec svc safe] in *.
  - by apply sound_RegisterAccount.
  - by apply sound_Deposit.
  - by apply sound_Pay.
  - by apply sound_Reject.
  - by apply sound_Repeat.
  - by apply sound_FavoritePayment.
  - by apply sound_PayFromFavorite.
  - by apply sound_AddAccountWithBalance.
  - done.
  - by apply sound_ImportFromFile.
Qed.

(** C5 (as amended): in every state reached from the fresh service by calls
    of the ten operations, whatever files there were at the start, every
    balance is at least 0, provided that no call adds to a balance beyond
    the largest int64 ([Deposit], [Reject], [AddAccountWithBalance]) and
    that no imported record carries a negative balance. *)
Theorem balances_stay_nonneg fs0 w :
  reachable_safely fs0 w -> balances_nonneg (svc w).
Proof.
  intros Hreach. assert (sound (svc w)) as [Hacc _].
  { induction Hreach as [| w o _ IH Hsafe]; [by split | by apply exec_sound]. }
  eapply Forall_impl; [exact Hacc |]. intros a Ha. cbn in Ha. lia.
Qed.

Lemma balances_stay_nonneg_witness :
  let fs0 : gmap string string := {["f" := "7;q;25|"]} in
  let w := exec (OpImportFromFile "f")
             (exec (OpPay 1 30 "food" "u")
                (exec (OpDeposit 1 100)
                   (exec (OpRegisterAccount "p") (mkWorld empty fs0)))) in
  accounts (svc w) = [mkAccount 1 "p" 70; mkAccount 7 "q" 25] /\
  balances_nonneg (svc w).
Proof.
  intros fs0 w. split; [reflexivity |].
  apply (balances_stay_nonneg fs0 w).
  repeat (apply reachable_safely_step); [apply reachable_safely_init | done | | done |].
  - intros i a [= <- <-]. by vm_compute.
  - intros content [= <-]. repeat constructor. by vm_compute.
Defined.

(** Importing a record with the balance -5 into the fresh service. *)
Lemma balances_stay_nonneg_counterexample :
  let fs0 : gmap string string := {["f" := "1;p;-5|"]} in
  let w := exec (OpImportFromFile "f") (mkWorld empty fs0) in
  reachable fs0 w /\
  accounts (svc w) = [mkAccount 1 "p" (-5)] /\
  ~ balances_nonneg (svc w).
Proof.
  intros fs0 w. split_and!.
  - apply reachable_step, reachable_init.
  - reflexivity.
  - unfold balances_nonneg.
    change (accounts (svc w)) with [mkAccount 1 "p" (-5)].
    intros [H _]%Forall_cons. cbn in H. lia.
Qed.

(** Two deposits that add up to more than the largest int64 wrap the
    balance around to the smallest one. *)
Lemma Deposit_wraps_around :
  let s1 := fst (RegisterAccount empty "p") in
  let s2 := fst (Deposit s1 1 9223372036854775807) in
  let s3 := fst (Deposit s2 1 1) in
  accounts s3 = [mkAccount 1 "p" (-9223372036854775808)].
Proof. reflexivity. Qed.

End Invariant.

(** * Further properties of the service *)

Section Deposits.
Import types wallet spec ledger history.

Lemma alter_lookup_id {A} (f : A -> A) (l : list A) i x :
  l !! i = Some x -> f x = x -> alter f i l = l.
Proof.
  intros Hi Hf. apply list_eq. intros j. rewrite list_lookup_alter.
  case_decide; [subst; by rewrite Hi; cbn; rewrite Hf | done].
Qed.

Lemma Deposit_found s accountID amount i a :
  FindAccountByID s accountID = Ok (i, a) -> 0 < amount ->
  Deposit s accountID amount
  = (mkService (nextAccountID s) (alter (credit amount) i (accounts s))
       (payments s) (favorites s), None).
Proof.
  intros Hfind%FindAccountByID_Ok Hpos. unfold Deposit.
  cmp_false (amount <=? 0). by rewrite Hfind.
Qed.

(** [Deposit] refuses an amount that is not positive with
    [ErrAmountMustBePositive], whether or not the account exists, and a
    positive amount for an ID that no account has with
    [ErrAccountNotFound]; in both cases the service is left as it was. *)
Theorem Deposit_refuses s accountID amount :
  (amount <= 0 ->
   Deposit s accountID amount = (s, Some ErrAmountMustBePositive)) /\
  (0 < amount ->
   Forall (fun a => Account_ID a <> accountID) (accounts s) ->
   Deposit s accountID amount = (s, Some ErrAccountNotFound)).
Proof.
  split.
  - intros Hle. unfold Deposit. by cmp_true (amount <=? 0).
  - intros Hpos Hnone. unfold Deposit. cmp_false (amount <=? 0).
    by rewrite (proj2 (list_find_None (fun a => Account_ID a = accountID) _) Hnone).
Qed.

Lemma Deposit_refuses_witness :
  Deposit (mkService 1 [mkAccount 1 "p" 5] [] []) 1 0
  = (mkService 1 [mkAccount 1 "p" 5] [] [], Some ErrAmountMustBePositive) /\
  Deposit (mkService 1 [mkAccount 1 "p" 5] [] []) 2 10
  = (mkService 1 [mkAccount 1 "p" 5] [] [], Some ErrAccountNotFound).
Proof.
  split.
  - apply (proj1 (Deposit_refuses _ 1 0)). lia.
  - apply (proj2 (Deposit_refuses _ 2 10)); [lia |].
    repeat constructor. cbn. lia.
Defined.

(** A deposit of a positive amount succeeds for the first account with the
    ID: its balance grows by the amount (the exact sum as long as that is an
    int64), its ID and phone stay, and nothing else in the service changes:
    not the other accounts, even those with the same ID, nor the payments,
    the favorites or the counter. *)
Theorem Deposit_credits s accountID amount i a :
  FindAccountByID s accountID = Ok (i, a) -> 0 < amount ->
  let s' := fst (Deposit s accountID amount) in
  snd (Deposit s accountID amount) = None /\
  accounts s' !! i
  = Some (mkAccount (Account_ID a) (Account_Phone a)
            (int64.add (Account_Balance a) amount)) /\
  (int64.in_range (Account_Balance a + amount) ->
   int64.add (Account_Balance a) amount = Account_Balance a + amount) /\
  (forall j, j <> i -> accounts s' !! j = accounts s !! j) /\
  length (accounts s') = length (accounts s) /\
  payments s' = payments s /\ favorites s' = favorites s /\
  nextAccountID s' = nextAccountID s.
Proof.
  intros Hfind Hpos. cbv zeta. rewrite (Deposit_found _ _ _ _ _ Hfind Hpos).
  cbn [fst snd accounts payments favorites nextAccountID].
  destruct (FindAccountByID_lookup _ _ _ _ Hfind) as [Hi _].
  split_and!; try done.
  - by rewrite list_lookup_alter_eq, Hi.
  - apply wrap_in_range.
  - intros j Hj. by rewrite list_lookup_alter_ne.
  - apply length_alter.
Qed.

Lemma Deposit_credits_witness :
  accounts (fst (Deposit (mkService 2 [mkAccount 1 "p" 5; mkAccount 1 "q" 7] [] [])
                   1 10))
  !! 0%nat = Some (mkAccount 1 "p" 15).
Proof.
  pose proof (Deposit_credits (mkService 2 [mkAccount 1 "p" 5; mkAccount 1 "q" 7] [] [])
                1 10 0%nat (mkAccount 1 "p" 5) eq_refl ltac:(lia)) as H.
  cbv zeta in H. destruct H as (_ & H & _). exact H.
Defined.

End Deposits.

Section Paying.
Import types wallet spec ledger history.

Lemma Pay_found s accountID amount category uuid i a :
  FindAccountByID s accountID = Ok (i, a) ->
  0 < amount -> amount <= Account_Balance a ->
  Pay s accountID amount category uuid
  = (mkService (nextAccountID s) (alter (debit amount) i (accounts s))
       (payments s ++
        [mkPayment uuid accountID amount category PaymentStatusInProgress])
       (favorites s),
     Ok (length (payments s),
         mkPayment uuid accountID amount category PaymentStatusInProgress)).
Proof.
  intros Hfind Hpos Hle. unfold Pay. rewrite Hfind.
  cmp_false (amount <=? 0). by cmp_false (Account_Balance a <? amount).
Qed.

Lemma FindPaymentByID_Err s paymentID e :
  FindPaymentByID s paymentID = Err e ->
  list_find (fun x => Payment_ID x = paymentID) (payments s) = None.
Proof. unfold FindPaymentByID. by destruct (list_find _ _). Qed.

Lemma FindFavoriteByID_Err s favoriteID e :
  FindFavoriteByID s favoriteID = Err e ->
  list_find (fun x => Favorite_ID x = favoriteID) (favorites s) = None.
Proof. unfold FindFavoriteByID. by destruct (list_find _ _). Qed.

Lemma list_find_snoc_fresh {A} (P : A -> Prop) `{forall x, Decision (P x)}
    (l : list A) x :
  list_find P l = None -> P x -> list_find P (l ++ [x]) = Some (length l, x).
Proof.
  intros Hnone HP. rewrite list_find_app_r by done.
  cbn. by rewrite decide_True.
Qed.

(** A payment of a positive amount that the first account with the ID can
    afford succeeds: that account is debited by exactly the amount, the
    other accounts are untouched, and the new payment, in progress and with
    the arguments of the call, becomes the last one, behind the payments
    there were, which are untouched too. *)
Theorem Pay_debits s accountID amount category uuid i a :
  FindAccountByID s accountID = Ok (i, a) ->
  int64.in_range (Account_Balance a) ->
  0 < amount -> amount <= Account_Balance a ->
  let payment := mkPayment uuid accountID amount category PaymentStatusInProgress in
  let s' := fst (Pay s accountID amount category uuid) in
  snd (Pay s accountID amount category uuid) = Ok (length (payments s), payment) /\
  payments s' = payments s ++ [payment] /\
  accounts s' !! i
  = Some (mkAccount (Account_ID a) (Account_Phone a) (Account_Balance a - amount)) /\
  (forall j, j <> i -> accounts s' !! j = accounts s !! j) /\
  favorites s' = favorites s /\ nextAccountID s' = nextAccountID s.
Proof.
  intros Hfind Hr Hpos Hle. cbv zeta. rewrite (Pay_found _ _ _ _ _ _ _ Hfind Hpos Hle).
  cbn [fst snd accounts payments favorites nextAccountID].
  destruct (FindAccountByID_lookup _ _ _ _ Hfind) as [Hi _].
  split_and!; try done.
  - rewrite list_lookup_alter_eq, Hi. cbn. unfold debit.
    by rewrite <- (debit_nonneg amount a) by done.
  - intros j Hj. by rewrite list_lookup_alter_ne.
Qed.

Lemma Pay_debits_witness :
  let s := mkService 1 [mkAccount 1 "p" 1000] [] [] in
  accounts (fst (Pay s 1 200 "food" "u")) !! 0%nat = Some (mkAccount 1 "p" 800).
Proof.
  intros s.
  pose proof (Pay_debits s 1 200 "food" "u" 0%nat (mkAccount 1 "p" 1000) eq_refl) as H.
  cbv zeta in H. destruct H as (_ & _ & H & _); [by vm_compute | lia | cbn; lia |].
  exact H.
Defined.

(** After a successful [Pay], every payment that [FindPaymentByID] found
    before is still found, unchanged, under its ID; the new payment is found
    under its own ID provided no earlier payment has that ID. *)
Theorem Pay_then_FindPaymentByID s accountID amount category uuid k payment :
  snd (Pay s accountID amount category uuid) = Ok (k, payment) ->
  let s' := fst (Pay s accountID amount category uuid) in
  (forall paymentID i p,
     FindPaymentByID s paymentID = Ok (i, p) ->
     FindPaymentByID s' paymentID = Ok (i, p)) /\
  (FindPaymentByID s uuid = Err ErrPaymentNotFound ->
   FindPaymentByID s' uuid = Ok (k, payment)) /\
  k = length (payments s) /\
  payment = mkPayment uuid accountID amount category PaymentStatusInProgress.
Proof.
  intros Hok. cbv zeta.
  destruct (Pay_cases s accountID amount category uuid)
    as [Hsame | (i & a & Hi & Hpos & Hle & Hs')].
  - exfalso. revert Hok Hsame. unfold Pay.
    destruct (amount <=? 0); [done |].
    destruct (FindAccountByID s accountID) as [[j b] |]; [| done].
    destruct (Account_Balance b <? amount); [done |].
    cbn [fst snd]. intros _ Heq.
    apply (f_equal (fun s => length (payments s))) in Heq.
    cbn in Heq. rewrite length_app in Heq. cbn in Heq. lia.
  - assert (k = length (payments s) /\
            payment = mkPayment uuid accountID amount category PaymentStatusInProgress)
      as [-> ->].
    { revert Hok. unfold Pay.
      destruct (amount <=? 0); [done |].
      destruct (FindAccountByID s accountID) as [[j b] |]; [| done].
      destruct (Account_Balance b <? amount); [done |].
      cbn [snd]. by intros [= <- <-]. }
    rewrite Hs'. split_and!; try done.
    + intros paymentID j p Hfind%FindPaymentByID_Ok.
      apply FindPaymentByID_Ok. cbn [payments]. by apply list_find_app_l.
    + intros Hfresh%FindPaymentByID_Err.
      apply FindPaymentByID_Ok. cbn [payments]. by apply list_find_snoc_fresh.
Qed.

Lemma Pay_then_FindPaymentByID_witness :
  let s := mkService 1 [mkAccount 1 "p" 1000]
             [mkPayment "u" 1 5 "taxi" PaymentStatusFail] [] in
  FindPaymentByID (fst (Pay s 1 200 "food" "u")) "u"
  = Ok (0%nat, mkPayment "u" 1 5 "taxi" PaymentStatusFail).
Proof.
  intros s.
  pose proof (Pay_then_FindPaymentByID s 1 200 "food" "u" 1%nat
                (mkPayment "u" 1 200 "food" PaymentStatusInProgress) eq_refl) as H.
  cbv zeta in H. destruct H as (H & _). by apply H.
Defined.

(** Paying and then rejecting that payment gives every account back the
    balance it had: the collection of accounts is the one before the
    payment, and the payment stays in the collection, failed.  (The ID of
    the payment must be new, or [Reject] would reach an older payment.) *)
Theorem Pay_then_Reject_restores s accountID amount category uuid i a :
  FindAccountByID s accountID = Ok (i, a) ->
  int64.in_range (Account_Balance a) ->
  0 < amount -> amount <= Account_Balance a ->
  FindPaymentByID s uuid = Err ErrPaymentNotFound ->
  let s1 := fst (Pay s accountID amount category uuid) in
  Reject s1 uuid
  = (mkService (nextAccountID s) (accounts s)
       (payments s ++ [mkPayment uuid accountID amount category PaymentStatusFail])
       (favorites s),
     None).
Proof.
  intros Hfind Hr Hpos Hle Hfresh%FindPaymentByID_Err. cbv zeta.
  rewrite (Pay_found _ _ _ _ _ _ _ Hfind Hpos Hle). cbn [fst].
  set (payment := mkPayment uuid accountID amount category PaymentStatusInProgress).
  set (s1 := mkService _ _ _ _).
  assert (FindPaymentByID s1 uuid = Ok (length (payments s), payment)) as Hp.
  { apply FindPaymentByID_Ok. by apply list_find_snoc_fresh. }
  assert (FindAccountByID s1 (Payment_AccountID payment) = Ok (i, debit amount a)) as Ha.
  { apply FindAccountByID_Ok. cbn [s1 accounts payment Payment_AccountID].
    apply list_find_alter_same; [done | by apply FindAccountByID_Ok]. }
  rewrite (Reject_found _ _ _ _ _ _ Hp Ha).
  cbn [s1 accounts payments favorites nextAccountID payment Payment_Amount].
  destruct (FindAccountByID_lookup _ _ _ _ Hfind) as [Hi _].
  f_equal. f_equal.
  - rewrite list_alter_alter_eq. apply (alter_lookup_id _ _ _ a); [done |].
    unfold compose, credit, debit. cbn [Account_ID Account_Phone Account_Balance].
    unfold int64.add, int64.sub. rewrite wrap_wrap_add.
    replace (Account_Balance a - amount + amount) with (Account_Balance a) by lia.
    rewrite wrap_in_range by done. by destruct a.
  - replace (length (payments s)) with (length (payments s) + 0)%nat by lia.
    by rewrite alter_app_r.
Qed.

Lemma Pay_then_Reject_restores_witness :
  let s := mkService 1 [mkAccount 1 "p" 1000] [] [] in
  accounts (fst (Reject (fst (Pay s 1 200 "food" "u")) "u")) = accounts s.
Proof.
  intros s.
  rewrite (Pay_then_Reject_restores s 1 200 "food" "u" 0%nat (mkAccount 1 "p" 1000));
    [reflexivity | reflexivity | by vm_compute | lia | cbn; lia | reflexivity].
Defined.

End Paying.

Section Favorites.
Import types wallet spec ledger history.

Lemma FindPaymentByID_absent s paymentID :
  Forall (fun p => Payment_ID p <> paymentID) (payments s) ->
  FindPaymentByID s paymentID = Err ErrPaymentNotFound.
Proof.
  intros Habsent. unfold FindPaymentByID.
  by rewrite (proj2 (list_find_None (fun p => Payment_ID p = paymentID) _) Habsent).
Qed.

Lemma Pay_set_favorites s l accountID amount category uuid :
  Pay (set_favorites s l) accountID amount category uuid
  = (set_favorites (fst (Pay s accountID amount category uuid)) l,
     snd (Pay s accountID amount category uuid)).
Proof.
  unfold Pay. destruct (amount <=? 0); [done |].
  change (FindAccountByID (set_favorites s l) accountID)
    with (FindAccountByID s accountID).
  destruct (FindAccountByID s accountID) as [[i a] |]; [| done].
  by destruct (Account_Balance a <? amount).
Qed.

(** [Repeat] fails with [ErrPaymentNotFound], changing nothing, when no
    payment has the ID.  For a payment that is found, whatever its status,
    it pays again: when the account of the payment can afford the amount,
    that account is debited by it and a new payment in progress, with the
    account, amount and category of the old one, is appended, the old
    payment staying as it is; when it cannot, the call fails with
    [ErrNotEnoughBalance] and changes nothing. *)
Theorem Repeat_pays_again :
  (forall s paymentID uuid,
     Forall (fun p => Payment_ID p <> paymentID) (payments s) ->
     Repeat s paymentID uuid = (s, Err ErrPaymentNotFound)) /\
  (forall s paymentID uuid i p j a,
     FindPaymentByID s paymentID = Ok (i, p) ->
     FindAccountByID s (Payment_AccountID p) = Ok (j, a) ->
     0 < Payment_Amount p -> Payment_Amount p <= Account_Balance a ->
     let payment := mkPayment uuid (Payment_AccountID p) (Payment_Amount p)
                      (Payment_Category p) PaymentStatusInProgress in
     Repeat s paymentID uuid
     = (mkService (nextAccountID s)
          (alter (debit (Payment_Amount p)) j (accounts s))
          (payments s ++ [payment]) (favorites s),
        Ok (length (payments s), payment)) /\
     (payments s ++ [payment]) !! i = Some p) /\
  (forall s paymentID uuid i p j a,
     FindPaymentByID s paymentID = Ok (i, p) ->
     FindAccountByID s (Payment_AccountID p) = Ok (j, a) ->
     0 < Payment_Amount p -> Account_Balance a < Payment_Amount p ->
     Repeat s paymentID uuid = (s, Err ErrNotEnoughBalance)).
Proof.
  split_and!.
  - intros s paymentID uuid Habsent. unfold Repeat.
    by rewrite FindPaymentByID_absent.
  - intros s paymentID uuid i p j a Hp Ha Hpos Hle. cbv zeta.
    unfold Repeat. rewrite Hp, (Pay_found _ _ _ _ _ _ _ Ha Hpos Hle).
    split; [done |]. apply lookup_app_l_Some.
    by apply FindPaymentByID_Ok, list_find_Some in Hp as (? & _).
  - intros s paymentID uuid i p j a Hp Ha Hpos Hlt. unfold Repeat, Pay.
    rewrite Hp, Ha. cmp_false (Payment_Amount p <=? 0).
    by cmp_true (Account_Balance a <? Payment_Amount p).
Qed.

Lemma Repeat_pays_again_witness :
  let s := mkService 1 [mkAccount 1 "p" 1000]
             [mkPayment "u1" 1 200 "food" PaymentStatusFail] [] in
  Repeat s "zz" "u2" = (s, Err ErrPaymentNotFound) /\
  Repeat s "u1" "u2"
  = (mkService 1 [mkAccount 1 "p" 800]
       [mkPayment "u1" 1 200 "food" PaymentStatusFail;
        mkPayment "u2" 1 200 "food" PaymentStatusInProgress] [],
     Ok (1%nat, mkPayment "u2" 1 200 "food" PaymentStatusInProgress)).
Proof.
  intros s. split.
  - apply (proj1 Repeat_pays_again). repeat constructor. by cbn.
  - pose proof (proj1 (proj2 Repeat_pays_again) s "u1" "u2" 0%nat
                  (mkPayment "u1" 1 200 "food" PaymentStatusFail) 0%nat
                  (mkAccount 1 "p" 1000) eq_refl eq_refl) as H.
    cbv zeta in H. destruct H as [H _]; [cbn; lia | cbn; lia |]. exact H.
Defined.

Lemma FavoritePayment_found s paymentID name uuid i p :
  FindPaymentByID s paymentID = Ok (i, p) ->
  FavoritePayment s paymentID name uuid
  = (mkService (nextAccountID s) (accounts s) (payments s)
       (favorites s ++ [mkFavorite uuid (Payment_AccountID p) name
                          (Payment_Amount p) (Payment_Category p)]),
     Ok (length (favorites s),
         mkFavorite uuid (Payment_AccountID p) name (Payment_Amount p)
           (Payment_Category p))) /\
  (FindFavoriteByID s uuid = Err ErrFavoriteNotFound ->
   FindFavoriteByID (fst (FavoritePayment s paymentID name uuid)) uuid
   = Ok (length (favorites s),
         mkFavorite uuid (Payment_AccountID p) name (Payment_Amount p)
           (Payment_Category p))).
Proof.
  intros Hp. unfold FavoritePayment. rewrite Hp. split; [done |].
  intros Hfresh%FindFavoriteByID_Err. cbn [fst]. unfold FindFavoriteByID.
  cbn [favorites set_favorites]. by rewrite list_find_snoc_fresh.
Qed.

(** [FavoritePayment] fails with [ErrPaymentNotFound], changing nothing,
    when no payment has the ID.  Otherwise it appends a favorite with the
    given name that copies the account, amount and category of the payment,
    whatever the status of the payment, and touches neither the accounts nor
    the payments nor the counter; [FindFavoriteByID] then finds the favorite
    under its ID, provided no earlier favorite has that ID. *)
Theorem FavoritePayment_copies :
  (forall s paymentID name uuid,
     Forall (fun p => Payment_ID p <> paymentID) (payments s) ->
     FavoritePayment s paymentID name uuid = (s, Err ErrPaymentNotFound)) /\
  (forall s paymentID name uuid i p,
     FindPaymentByID s paymentID = Ok (i, p) ->
     let favorite := mkFavorite uuid (Payment_AccountID p) name (Payment_Amount p)
                       (Payment_Category p) in
     FavoritePayment s paymentID name uuid
     = (mkService (nextAccountID s) (accounts s) (payments s)
          (favorites s ++ [favorite]),
        Ok (length (favorites s), favorite)) /\
     (FindFavoriteByID s uuid = Err ErrFavoriteNotFound ->
      FindFavoriteByID (fst (FavoritePayment s paymentID name uuid)) uuid
      = Ok (length (favorites s), favorite))).
Proof.
  split.
  - intros s paymentID name uuid Habsent. unfold FavoritePayment.
    by rewrite FindPaymentByID_absent.
  - intros s paymentID name uuid i p Hp. cbv zeta.
    by destruct (FavoritePayment_found s paymentID name uuid i p Hp).
Qed.

Lemma FavoritePayment_copies_witness :
  let s := mkService 1 [mkAccount 1 "p" 1000]
             [mkPayment "u1" 1 200 "food" PaymentStatusFail] [] in
  FavoritePayment s "zz" "lunch" "f1" = (s, Err ErrPaymentNotFound) /\
  FindFavoriteByID (fst (FavoritePayment s "u1" "lunch" "f1")) "f1"
  = Ok (0%nat, mkFavorite "f1" 1 "lunch" 200 "food").
Proof.
  intros s. split.
  - apply (proj1 FavoritePayment_copies). repeat constructor. by cbn.
  - pose proof (proj2 FavoritePayment_copies s "u1" "lunch" "f1" 0%nat
                  (mkPayment "u1" 1 200 "food" PaymentStatusFail) eq_refl) as H.
    cbv zeta in H. destruct H as [_ H]. by apply H.
Defined.

(** Making a favorite of a payment and paying from that favorite does to
    the accounts and the payments what paying with the account, amount and
    category of the payment does, error included; only the favorite is there
    in addition.  (The ID of the favorite must be new, or the older favorite
    with that ID would be paid from.) *)
Theorem PayFromFavorite_after_FavoritePayment s paymentID name fuuid puuid i p :
  FindPaymentByID s paymentID = Ok (i, p) ->
  FindFavoriteByID s fuuid = Err ErrFavoriteNotFound ->
  let s1 := fst (FavoritePayment s paymentID name fuuid) in
  let paid := Pay s (Payment_AccountID p) (Payment_Amount p) (Payment_Category p)
                puuid in
  PayFromFavorite s1 fuuid puuid
  = (mkService (nextAccountID (fst paid)) (accounts (fst paid))
       (payments (fst paid)) (favorites s1),
     snd paid) /\
  favorites (fst paid) = favorites s.
Proof.
  intros Hp Hfresh. cbv zeta.
  destruct (FavoritePayment_found s paymentID name fuuid i p Hp) as [Hfav Hfind].
  specialize (Hfind Hfresh).
  unfold PayFromFavorite. rewrite Hfind.
  cbn [Favorite_AccountID Favorite_Amount Favorite_Category].
  rewrite Hfav. cbn [fst].
  change (mkService (nextAccountID s) (accounts s) (payments s)
            (favorites s ++ [mkFavorite fuuid (Payment_AccountID p) name
                               (Payment_Amount p) (Payment_Category p)]))
    with (set_favorites s
            (favorites s ++ [mkFavorite fuuid (Payment_AccountID p) name
                               (Payment_Amount p) (Payment_Category p)])).
  rewrite Pay_set_favorites.
  split; [by destruct (snd (Pay _ _ _ _ _)) |].
  by destruct (Pay_cases s (Payment_AccountID p) (Payment_Amount p)
                 (Payment_Category p) puuid) as [-> | (? & ? & _ & _ & _ & ->)].
Qed.

Lemma PayFromFavorite_after_FavoritePayment_witness :
  let s := mkService 1 [mkAccount 1 "p" 1000]
             [mkPayment "u1" 1 200 "food" PaymentStatusFail] [] in
  accounts (fst (PayFromFavorite (fst (FavoritePayment s "u1" "lunch" "f1")) "f1" "u2"))
  = [mkAccount 1 "p" 800].
Proof.
  intros s.
  pose proof (PayFromFavorite_after_FavoritePayment s "u1" "lunch" "f1" "u2" 0%nat
                (mkPayment "u1" 1 200 "food" PaymentStatusFail) eq_refl eq_refl) as H.
  cbv zeta in H. destruct H as [-> _]. reflexivity.
Defined.

End Favorites.

Section Histories.
Import types wallet spec ledger history.

(** *** Every call is a series of elementary changes *)

Lemma service_eta s :
  mkService (nextAccountID s) (accounts s) (payments s) (favorites s) = s.
Proof. by destruct s. Qed.

Lemma RegisterAccount_changes b s phone :
  rtc (change b) s (fst (RegisterAccount s phone)).
Proof.
  unfold RegisterAccount.
  destruct (list_find _ _) eqn:Hfind; [done |].
  apply rtc_once.
  exact (change_registered b s phone (proj1 (list_find_None _ _) Hfind)).
Qed.

Lemma Deposit_changes b s accountID amount :
  rtc (change b) s (fst (Deposit s accountID amount)).
Proof.
  unfold Deposit. destruct (amount <=? 0); [done |].
  destruct (list_find _ _) as [[i a] |]; [| done].
  apply rtc_once. exact (change_credited b s i amount).
Qed.

Lemma Pay_changes b s accountID amount category uuid :
  rtc (change b) s (fst (Pay s accountID amount category uuid)).
Proof.
  unfold Pay. destruct (amount <=? 0) eqn:Hpos; [done |].
  destruct (FindAccountByID s accountID) as [[i a] |] eqn:Hfind; [| done].
  destruct (Account_Balance a <? amount) eqn:Hbal; [done |].
  apply Z.leb_gt in Hpos. apply Z.ltb_ge in Hbal.
  destruct (FindAccountByID_lookup _ _ _ _ Hfind) as [Hi <-].
  apply rtc_once. exact (change_paid b s i a amount category uuid Hi Hpos Hbal).
Qed.

Lemma Reject_changes b s paymentID :
  rtc (change b) s (fst (Reject s paymentID)).
Proof.
  unfold Reject.
  destruct (FindPaymentByID s paymentID) as [[pp p] |]; [| done].
  destruct (FindAccountByID s (Payment_AccountID p)) as [[ap a] |]; [| done].
  eapply rtc_l; [exact (change_failed b s pp) |].
  apply rtc_once. exact (change_credited b _ ap (Payment_Amount p)).
Qed.

Lemma AddAccountWithBalance_changes b s phone balance :
  rtc (change b) s (fst (AddAccountWithBalance s phone balance)).
Proof.
  unfold AddAccountWithBalance.
  pose proof (RegisterAccount_changes b s phone) as Hreg.
  destruct (RegisterAccount s phone) as [s1 [[i a] |]]; [| done].
  pose proof (Deposit_changes b s1 (Account_ID a) balance) as Hdep.
  destruct (Deposit s1 (Account_ID a) balance) as [s2 [|]];
    by eapply rtc_trans.
Qed.

Lemma Repeat_changes b s paymentID uuid :
  rtc (change b) s (fst (Repeat s paymentID uuid)).
Proof.
  unfold Repeat. destruct (FindPaymentByID s paymentID) as [[i p] |]; [| done].
  pose proof (Pay_changes b s (Payment_AccountID p) (Payment_Amount p)
                (Payment_Category p) uuid) as Hpay.
  by destruct (Pay _ _ _ _ _) as [s1 [|]].
Qed.

Lemma PayFromFavorite_changes b s favoriteID uuid :
  rtc (change b) s (fst (PayFromFavorite s favoriteID uuid)).
Proof.
  unfold PayFromFavorite.
  destruct (FindFavoriteByID s favoriteID) as [[i f] |]; [| done].
  pose proof (Pay_changes b s (Favorite_AccountID f) (Favorite_Amount f)
                (Favorite_Category f) uuid) as Hpay.
  by destruct (Pay _ _ _ _ _) as [s1 [|]].
Qed.

Lemma FavoritePayment_changes b s paymentID name uuid :
  rtc (change b) s (fst (FavoritePayment s paymentID name uuid)).
Proof.
  unfold FavoritePayment.
  destruct (FindPaymentByID s paymentID) as [[i p] |] eqn:Hp; [| done].
  apply FindPaymentByID_Ok, list_find_Some in Hp as (Hi & _).
  apply rtc_once. exact (change_favorited b s i p name uuid Hi).
Qed.

Lemma ImportFromFile_changes s path fs :
  rtc (change true) s (fst (ImportFromFile s path fs)).
Proof.
  destruct (fs !! path) as [content |] eqn:Hfile.
  - rewrite (ImportFromFile_spec _ _ _ _ Hfile).
    apply rtc_once. exact (change_imported true s _ eq_refl).
  - unfold ImportFromFile, Open. by rewrite Hfile.
Qed.

Lemma exec_changes o w :
  rtc (change (is_import o)) (svc w) (svc (exec o w)).
Proof.
  destruct o; cbn [exec svc is_import];
    auto using RegisterAccount_changes, Deposit_changes, Pay_changes,
      Reject_changes, Repeat_changes, FavoritePayment_changes,
      PayFromFavorite_changes, AddAccountWithBalance_changes,
      ImportFromFile_changes.
  done.
Qed.

Lemma change_imports b s s' : change b s s' -> change true s s'.
Proof.
  intros [s0 phone Hfresh | s0 i amount | s0 i a amount category uuid Hi Hpos Hle
          | s0 i | s0 i p name uuid Hi | s0 l _].
  - by apply change_registered.
  - apply change_credited.
  - by apply change_paid.
  - apply change_failed.
  - exact (change_favorited true s0 i p name uuid Hi).
  - by apply change_imported.
Qed.

Lemma run_snoc ops o w : run (ops ++ [o]) w = exec o (run ops w).
Proof. unfold run. by rewrite foldl_app. Qed.

Lemma run_changes ops w : rtc (change true) (svc w) (svc (run ops w)).
Proof.
  induction ops as [| o ops IH] using rev_ind; [done |].
  rewrite run_snoc. eapply rtc_trans; [exact IH |].
  eapply rtc_subrel; [| apply exec_changes]. intros ??. apply change_imports.
Qed.

Lemma run_changes_no_import ops w :
  forallb (fun o => negb (is_import o)) ops = true ->
  rtc (change false) (svc w) (svc (run ops w)).
Proof.
  induction ops as [| o ops IH] using rev_ind; [done |].
  rewrite forallb_app. intros [Hops Ho]%andb_prop. cbn in Ho.
  rewrite run_snoc. eapply rtc_trans; [by apply IH |].
  destruct (is_import o) eqn:Himp; [done |].
  rewrite <- Himp. apply exec_changes.
Qed.

End Histories.

Section Entities.
Import types wallet spec ledger history.

Lemma keeps_refl {A} (R : A -> A -> Prop) (l : list A) :
  (forall x, R x x) -> keeps R l l.
Proof. intros HR i x Hi. eauto. Qed.

Lemma keeps_trans {A} (R : A -> A -> Prop) (l1 l2 l3 : list A) :
  (forall x y z, R x y -> R y z -> R x z) ->
  keeps R l1 l2 -> keeps R l2 l3 -> keeps R l1 l3.
Proof.
  intros HR H12 H23 i x Hi.
  destruct (H12 i x Hi) as (y & Hy & Hxy).
  destruct (H23 i y Hy) as (z & Hz & Hyz). eauto.
Qed.

Lemma keeps_app {A} (R : A -> A -> Prop) (l k : list A) :
  (forall x, R x x) -> keeps R l (l ++ k).
Proof. intros HR i x Hi. exists x. split; [by apply lookup_app_l_Some | done]. Qed.

Lemma keeps_alter {A} (R : A -> A -> Prop) (f : A -> A) (l : list A) j :
  (forall x, R x x) -> (forall x, R x (f x)) -> keeps R l (alter f j l).
Proof.
  intros HR Hf i x Hi. rewrite list_lookup_alter.
  destruct (decide (j = i)) as [-> |]; [| eauto].
  rewrite Hi. cbn. eauto.
Qed.

Lemma same_account_refl a : same_account a a.
Proof. done. Qed.

Lemma same_account_trans a b c :
  same_account a b -> same_account b c -> same_account a c.
Proof. unfold same_account. intros [] []. split; congruence. Qed.

Lemma same_payment_refl p : same_payment p p.
Proof. unfold same_payment. by split_and!. Qed.

Lemma same_payment_trans p q r :
  same_payment p q -> same_payment q r -> same_payment p r.
Proof.
  unfold same_payment. intros (? & ? & ? & ? & ?) (? & ? & ? & ? & ?).
  split_and!; try congruence. auto.
Qed.

Lemma extends_refl s : extends s s.
Proof.
  split_and!; [apply keeps_refl, same_account_refl
              | apply keeps_refl, same_payment_refl | done].
Qed.

Lemma extends_trans s1 s2 s3 : extends s1 s2 -> extends s2 s3 -> extends s1 s3.
Proof.
  intros (Ha & Hp & Hf) (Ha' & Hp' & Hf'). split_and!.
  - eapply keeps_trans; [apply same_account_trans | done | done].
  - eapply keeps_trans; [apply same_payment_trans | done | done].
  - by etrans.
Qed.

Lemma change_extends b s s' : change b s s' -> extends s s'.
Proof.
  intros [s0 phone Hfresh | s0 i amount | s0 i a amount category uuid Hi Hpos Hle
          | s0 i | s0 i p name uuid Hi | s0 l _];
    split_and!; cbn [accounts payments favorites];
    try (apply keeps_refl, same_account_refl);
    try (apply keeps_refl, same_payment_refl);
    try done;
    try (apply keeps_app, same_account_refl);
    try (apply keeps_app, same_payment_refl);
    try (apply keeps_alter; [apply same_account_refl | done]);
    try (by apply prefix_app_r).
  apply keeps_alter; [apply same_payment_refl |].
  intros x. unfold same_payment. by split_and!.
Qed.

Lemma changes_extend b s s' : rtc (change b) s s' -> extends s s'.
Proof.
  induction 1 as [| s1 s2 s3 Hstep _ IH]; [apply extends_refl |].
  eapply extends_trans; [by eapply change_extends | done].
Qed.

(** Whatever calls are made, no account, payment or favorite is ever removed
    or moved: an account keeps its position, its ID and its phone; a payment
    keeps its position, its ID, account, amount and category, and once its
    status is [PaymentStatusFail] it stays so; the favorites there were are
    a prefix of the favorites there are, unchanged. *)
Theorem calls_keep_entities ops w :
  (forall i a, accounts (svc w) !! i = Some a ->
     exists a', accounts (svc (run ops w)) !! i = Some a' /\
                Account_ID a' = Account_ID a /\ Account_Phone a' = Account_Phone a) /\
  (forall i p, payments (svc w) !! i = Some p ->
     exists p', payments (svc (run ops w)) !! i = Some p' /\
                Payment_ID p' = Payment_ID p /\
                Payment_AccountID p' = Payment_AccountID p /\
                Payment_Amount p' = Payment_Amount p /\
                Payment_Category p' = Payment_Category p /\
                (Payment_Status p = PaymentStatusFail ->
                 Payment_Status p' = PaymentStatusFail)) /\
  favorites (svc w) `prefix_of` favorites (svc (run ops w)).
Proof. exact (changes_extend _ _ _ (run_changes ops w)). Qed.

Lemma has_account_keeps l l' accountID :
  keeps same_account l l' -> has_account l accountID -> has_account l' accountID.
Proof.
  intros Hkeep (a & Hin & Hid)%Exists_exists.
  apply list_elem_of_lookup in Hin as [i Hi].
  destruct (Hkeep i a Hi) as (a' & Hi' & Hid' & _).
  apply Exists_exists. exists a'. split; [by eapply list_elem_of_lookup_2 | congruence].
Qed.

Lemma FindAccountByID_has_account s accountID :
  has_account (accounts s) accountID <->
  exists i a, FindAccountByID s accountID = Ok (i, a).
Proof.
  unfold has_account, FindAccountByID. split.
  - intros (a & Hin & Hid)%Exists_exists.
    destruct (list_find_elem_of (fun x => Account_ID x = accountID) _ a Hin Hid)
      as [[i b] ->]. eauto.
  - intros (i & a & Hfind).
    destruct (list_find _ _) as [[j b] |] eqn:Hf; [| done].
    apply list_find_Some in Hf as (Hj & Hid & _).
    apply Exists_exists. exists b. split; [by eapply list_elem_of_lookup_2 | done].
Qed.

Lemma change_linked b s s' : change b s s' -> linked s -> linked s'.
Proof.
  intros Hchange [Hpay Hfav].
  pose proof (change_extends _ _ _ Hchange) as (Hkeep & _ & _).
  assert (Forall (fun p => has_account (accounts s') (Payment_AccountID p) /\
                           0 < Payment_Amount p) (payments s)) as Hpay'.
  { eapply Forall_impl; [exact Hpay |]. intros p [? ?].
    split; [by eapply has_account_keeps | done]. }
  assert (Forall (fun f => has_account (accounts s') (Favorite_AccountID f) /\
                           0 < Favorite_Amount f) (favorites s)) as Hfav'.
  { eapply Forall_impl; [exact Hfav |]. intros f [? ?].
    split; [by eapply has_account_keeps | done]. }
  clear Hpay Hfav.
  destruct Hchange as [s0 phone Hfresh | s0 i amount
                      | s0 i a amount category uuid Hi Hpos Hle
                      | s0 i | s0 i p name uuid Hi | s0 l _];
    split; cbn [accounts payments favorites] in *; try done.
  - apply Forall_app. split; [done |]. repeat constructor; [| done].
    cbn [Payment_AccountID]. eapply has_account_keeps; [exact Hkeep |].
    apply Exists_exists. exists a. split; [by eapply list_elem_of_lookup_2 | done].
  - apply Forall_alter; [done |]. by intros p _ [? ?].
  - apply Forall_app. split; [done |]. repeat constructor.
    + exact (proj1 (Forall_lookup_1 _ _ _ _ Hpay' Hi)).
    + exact (proj2 (Forall_lookup_1 _ _ _ _ Hpay' Hi)).
Qed.

Lemma run_linked fs0 ops : linked (svc (run ops (mkWorld empty fs0))).
Proof.
  assert (forall s s', rtc (change true) s s' -> linked s -> linked s') as Hrtc.
  { induction 1 as [| s1 s2 s3 Hstep _ IH]; [done |].
    intros Hs1. apply IH. by eapply change_linked. }
  apply (Hrtc _ _ (run_changes ops (mkWorld empty fs0))).
  by split; constructor.
Qed.

(** In every state reached from the fresh service, imports included, every
    payment and every favorite names an account that [FindAccountByID]
    finds, and carries a positive amount. *)
Theorem payments_name_accounts fs0 ops :
  let s := svc (run ops (mkWorld empty fs0)) in
  (forall p, p ∈ payments s ->
     0 < Payment_Amount p /\
     exists i a, FindAccountByID s (Payment_AccountID p) = Ok (i, a)) /\
  (forall f, f ∈ favorites s ->
     0 < Favorite_Amount f /\
     exists i a, FindAccountByID s (Favorite_AccountID f) = Ok (i, a)).
Proof.
  cbv zeta. destruct (run_linked fs0 ops) as [Hpay Hfav]. split.
  - intros p Hp. destruct (proj1 (Forall_forall _ _) Hpay p Hp) as [Hacc Hpos].
    split; [done | by apply FindAccountByID_has_account].
  - intros f Hf. destruct (proj1 (Forall_forall _ _) Hfav f Hf) as [Hacc Hpos].
    split; [done | by apply FindAccountByID_has_account].
Qed.

(** Hence, in every state reached from the fresh service, [Reject] fails
    only for want of the payment, and [Repeat] and [PayFromFavorite] fail
    only for want of the payment or favorite, or of balance: none of them
    returns [ErrAccountNotFound] or [ErrAmountMustBePositive]. *)
Theorem calls_find_their_account fs0 ops :
  let s := svc (run ops (mkWorld empty fs0)) in
  (forall paymentID,
     snd (Reject s paymentID) = None \/
     Reject s paymentID = (s, Some ErrPaymentNotFound)) /\
  (forall paymentID uuid,
     match snd (Repeat s paymentID uuid) with
     | Ok _ => True
     | Err e => fst (Repeat s paymentID uuid) = s /\
                (e = ErrPaymentNotFound \/ e = ErrNotEnoughBalance)
     end) /\
  (forall favoriteID uuid,
     match snd (PayFromFavorite s favoriteID uuid) with
     | Ok _ => True
     | Err e => fst (PayFromFavorite s favoriteID uuid) = s /\
                (e = ErrFavoriteNotFound \/ e = ErrNotEnoughBalance)
     end).
Proof.
  cbv zeta. destruct (run_linked fs0 ops) as [Hpay Hfav].
  set (s := svc (run ops (mkWorld empty fs0))) in *. split_and!.
  - intros paymentID. unfold Reject, FindPaymentByID.
    destruct (list_find _ (payments s)) as [[i p] |] eqn:Hp; [left | by right].
    apply list_find_Some in Hp as (Hi & _).
    destruct (Forall_lookup_1 _ _ _ _ Hpay Hi) as [Hacc _].
    apply FindAccountByID_has_account in Hacc as (j & a & ->). done.
  - intros paymentID uuid. unfold Repeat, FindPaymentByID.
    destruct (list_find _ (payments s)) as [[i p] |] eqn:Hp; [| cbn; by auto].
    apply list_find_Some in Hp as (Hi & _).
    destruct (Forall_lookup_1 _ _ _ _ Hpay Hi) as [Hacc Hpos].
    apply FindAccountByID_has_account in Hacc as (j & a & Ha).
    unfold Pay. rewrite Ha. cmp_false (Payment_Amount p <=? 0).
    destruct (Account_Balance a <? Payment_Amount p); cbn; auto.
  - intros favoriteID uuid. unfold PayFromFavorite, FindFavoriteByID.
    destruct (list_find _ (favorites s)) as [[i f] |] eqn:Hf; [| cbn; by auto].
    apply list_find_Some in Hf as (Hi & _).
    destruct (Forall_lookup_1 _ _ _ _ Hfav Hi) as [Hacc Hpos].
    apply FindAccountByID_has_account in Hacc as (j & a & Ha).
    unfold Pay. rewrite Ha. cmp_false (Favorite_Amount f <=? 0).
    destruct (Account_Balance a <? Favorite_Amount f); cbn; auto.
Qed.

End Entities.

Section Registrations.
Import types wallet spec ledger history.

Lemma map_alter_same {A B} (g : A -> B) (f : A -> A) (l : list A) :
  (forall x, g (f x) = g x) -> forall i, map g (alter f i l) = map g l.
Proof.
  intros Hg. induction l as [| x l IH]; intros [| i]; cbn; [done | done | |].
  - by rewrite Hg.
  - by rewrite IH.
Qed.

Lemma registered_once_same s s' :
  nextAccountID s' = nextAccountID s ->
  map Account_ID (accounts s') = map Account_ID (accounts s) ->
  map Account_Phone (accounts s') = map Account_Phone (accounts s) ->
  registered_once s -> registered_once s'.
Proof.
  intros Hnext Hids Hphones [Hdup Hseq].
  assert (length (accounts s') = length (accounts s)) as Hlen.
  { by rewrite <- (length_map Account_ID (accounts s')), Hids, length_map. }
  split; [by rewrite Hphones |].
  unfold sequential in *. rewrite Hnext, Hids, Hlen. exact Hseq.
Qed.

Lemma change_registered_once s s' :
  change false s s' -> registered_once s -> registered_once s'.
Proof.
  intros [s0 phone Hfresh | s0 i amount | s0 i a amount category uuid Hi Hpos Hle
          | s0 i | s0 i p name uuid Hi | s0 l Himp] Hs; [| | | | | done].
  - destruct Hs as [Hdup Hseq]. split.
    + cbn [accounts]. rewrite map_app. apply NoDup_app. split_and!; [done | |].
      * intros x Hx Hin. apply list_elem_of_singleton in Hin as ->.
        apply list_elem_of_In, in_map_iff in Hx as (a & Hphone & Hin).
        apply list_elem_of_In in Hin.
        by apply (proj1 (Forall_forall _ _) Hfresh a Hin).
      * cbn. apply NoDup_singleton.
    + cbn [accounts]. rewrite length_app. cbn [length]. intros Hroom.
      destruct (RegisterAccount_sequential s0 phone) as [Hseq' _].
      * apply Hseq. lia.
      * lia.
      * by rewrite RegisterAccount_fresh in Hseq'.
  - apply (registered_once_same s0); [done | | | done]; cbn [accounts];
      by apply map_alter_same.
  - apply (registered_once_same s0); [done | | | done]; cbn [accounts];
      by apply map_alter_same.
  - by apply (registered_once_same s0).
  - by apply (registered_once_same s0).
Qed.

(** As long as nothing is imported, registration keeps its promise: in
    every state reached from the fresh service by the other nine
    operations, no two accounts have the same phone, and (the number of
    accounts being an int64) the accounts carry the IDs 1, 2, ... in order
    with the counter at their number, so that no two have the same ID. *)
Theorem phones_and_ids_stay_unique fs0 ops :
  forallb (fun o => negb (is_import o)) ops = true ->
  let s := svc (run ops (mkWorld empty fs0)) in
  NoDup (map Account_Phone (accounts s)) /\
  (Z.of_nat (length (accounts s)) <= int64.max_int64 ->
   nextAccountID s = Z.of_nat (length (accounts s)) /\
   map Account_ID (accounts s) = map Z.of_nat (seq 1 (length (accounts s)))).
Proof.
  intros Hops. cbv zeta.
  assert (forall s s', rtc (change false) s s' ->
            registered_once s -> registered_once s') as Hrtc.
  { induction 1 as [| s1 s2 s3 Hstep _ IH]; [done |].
    intros Hs1. apply IH. by eapply change_registered_once. }
  apply (Hrtc _ _ (run_changes_no_import ops (mkWorld empty fs0) Hops)).
  split; [constructor | done].
Qed.

Lemma phones_and_ids_stay_unique_witness :
  let ops := [OpAddAccountWithBalance "a" 100; OpRegisterAccount "b";
              OpRegisterAccount "a"; OpPay 1 30 "food" "u"; OpReject "u";
              OpAddAccountWithBalance "c" 0] in
  map Account_ID (accounts (svc (run ops (mkWorld empty ∅)))) = [1; 2; 3].
Proof.
  intros ops.
  pose proof (phones_and_ids_stay_unique ∅ ops eq_refl) as H.
  cbv zeta in H. destruct H as [_ H].
  destruct H as [_ ->]; [by vm_compute | reflexivity].
Defined.

Lemma FindAccountByID_absent s accountID :
  Forall (fun a => Account_ID a <> accountID) (accounts s) ->
  list_find (fun a => Account_ID a = accountID) (accounts s) = None.
Proof. intros Habsent. by apply list_find_None. Qed.

Lemma RegisterAccount_lookup s phone :
  Forall (fun a => Account_Phone a <> phone) (accounts s) ->
  (Forall (fun a => Account_ID a <> int64.add (nextAccountID s) 1) (accounts s) ->
   FindAccountByID (fst (RegisterAccount s phone)) (int64.add (nextAccountID s) 1)
   = Ok (length (accounts s), mkAccount (int64.add (nextAccountID s) 1) phone 0)) /\
  (forall i a,
     FindAccountByID s (int64.add (nextAccountID s) 1) = Ok (i, a) ->
     FindAccountByID (fst (RegisterAccount s phone)) (int64.add (nextAccountID s) 1)
     = Ok (i, a)).
Proof.
  intros Hfresh. rewrite RegisterAccount_fresh by done. cbn [fst]. split.
  - intros Habsent%FindAccountByID_absent. apply FindAccountByID_Ok.
    cbn [accounts]. by apply list_find_snoc_fresh.
  - intros i a Hfind%FindAccountByID_Ok. apply FindAccountByID_Ok.
    cbn [accounts]. by apply list_find_app_l.
Qed.

(** After a successful registration, [FindAccountByID] finds the new
    account under its ID only if no account had that ID before; an account
    that had it (one that was imported with it) is the one still found. *)
Theorem RegisterAccount_then_FindAccountByID s phone :
  Forall (fun a => Account_Phone a <> phone) (accounts s) ->
  let id := int64.add (nextAccountID s) 1 in
  let s' := fst (RegisterAccount s phone) in
  (Forall (fun a => Account_ID a <> id) (accounts s) ->
   FindAccountByID s' id = Ok (length (accounts s), mkAccount id phone 0)) /\
  (forall i a, FindAccountByID s id = Ok (i, a) ->
               FindAccountByID s' id = Ok (i, a)).
Proof.
  intros Hfresh. cbv zeta. by apply RegisterAccount_lookup.
Qed.

Lemma RegisterAccount_then_FindAccountByID_witness :
  let s := fst (ImportFromFile empty "f" {["f" := "1;old;50|"]}) in
  FindAccountByID (fst (RegisterAccount s "new")) 1
  = Ok (0%nat, mkAccount 1 "old" 50).
Proof.
  intros s.
  apply (proj2 (RegisterAccount_then_FindAccountByID s "new"
                  ltac:(repeat constructor; by vm_compute))).
  reflexivity.
Defined.

(** [AddAccountWithBalance] with a new phone and a positive balance
    succeeds and returns the position of the new account.  The balance goes
    to the first account with the new ID: to the new account when no account
    had that ID, and otherwise to the older account that has it, the new
    account staying at 0. *)
Theorem AddAccountWithBalance_deposits s phone balance :
  Forall (fun a => Account_Phone a <> phone) (accounts s) ->
  0 < balance -> int64.in_range balance ->
  let id := int64.add (nextAccountID s) 1 in
  (Forall (fun a => Account_ID a <> id) (accounts s) ->
   AddAccountWithBalance s phone balance
   = (mkService id (accounts s ++ [mkAccount id phone balance])
        (payments s) (favorites s),
      Ok (length (accounts s)))) /\
  (forall i a, FindAccountByID s id = Ok (i, a) ->
     AddAccountWithBalance s phone balance
     = (mkService id
          (alter (credit balance) i (accounts s) ++ [mkAccount id phone 0])
          (payments s) (favorites s),
        Ok (length (accounts s)))).
Proof.
  intros Hfresh Hpos Hr. cbv zeta.
  destruct (RegisterAccount_lookup s phone Hfresh) as [Hnew Hold].
  unfold AddAccountWithBalance.
  rewrite RegisterAccount_fresh in * by done. cbn [fst Account_ID] in *. split.
  - intros Habsent. rewrite (Deposit_found _ _ _ _ _ (Hnew Habsent) Hpos).
    cbn [accounts payments favorites nextAccountID]. do 2 f_equal.
    replace (length (accounts s)) with (length (accounts s) + 0)%nat by lia.
    rewrite alter_app_r. cbn [alter list_alter]. unfold credit.
    cbn [Account_ID Account_Phone Account_Balance].
    by rewrite (wrap_in_range balance Hr : int64.add 0 balance = balance).
  - intros i a Hfind. rewrite (Deposit_found _ _ _ _ _ (Hold _ _ Hfind) Hpos).
    cbn [accounts payments favorites nextAccountID]. do 2 f_equal.
    apply alter_app_l.
    destruct (FindAccountByID_lookup _ _ _ _ Hfind) as [Hi _].
    by eapply lookup_lt_Some.
Qed.

Lemma AddAccountWithBalance_deposits_witness :
  let s := fst (ImportFromFile empty "f" {["f" := "1;old;50|"]}) in
  AddAccountWithBalance s "new" 100
  = (mkService 1 [mkAccount 1 "old" 150; mkAccount 1 "new" 0] [] [], Ok 1%nat).
Proof.
  intros s.
  apply (proj2 (AddAccountWithBalance_deposits s "new" 100
                  ltac:(repeat constructor; by vm_compute) ltac:(lia)
                  ltac:(by vm_compute)) 0%nat (mkAccount 1 "old" 50)).
  reflexivity.
Defined.

End Registrations.

Section Files.
Import types wallet spec ledger history.

(** The read loop of [ImportFromFile], which takes the file four bytes at
    a time, ends with the whole content of the file, whatever its length. *)
Theorem read_loop_reads_all file : read_loop file EmptyString = file.
Proof. by rewrite read_loop_all, string_app_nil_l. Qed.

(** The three ways a call of [ImportFromFile] can go, whatever the
    operating system answers.  If the file does not open, or a read fails,
    the call returns that error and the service is as it was.  If the file
    is read to its end, the call appends an account for each segment in
    front of the first one that is empty or has fewer than three fields,
    leaves the accounts there were, the payments, the favorites and the
    counter as they are, and then returns nil if that first segment is empty
    or there is none, and panics if it is a record with fewer than three
    fields (the accounts appended before it stay).  [ImportFromFile] is the
    call where a path opens exactly when it has a file and no read fails. *)
Theorem ImportFromFile_behaviour s :
  (forall err, ImportFromFile_os (open_error err) s = (s, Return (Some err))) /\
  (forall bytes err,
     ImportFromFile_os (open_file bytes (Some err)) s = (s, Return (Some err))) /\
  (forall bytes,
     ImportFromFile_os (open_file bytes None) s
     = (mkService (nextAccountID s)
          (accounts s ++
           map record_account (accepted (gostrings.Split bytes "|")))
          (payments s) (favorites s),
        if short_record (gostrings.Split bytes "|") then Panic else Return None)) /\
  (forall path fs,
     ImportFromFile s path fs
     = ImportFromFile_os
         (match fs !! path with
          | Some bytes => open_file bytes None
          | None => open_error (ErrOpen path)
          end) s).
Proof.
  split_and!; try done.
  intros bytes. cbn [ImportFromFile_os].
  rewrite read_loop_all, string_app_nil_l. cbv zeta. apply import_lines_spec.
Qed.

Lemma ImportFromFile_behaviour_witness :
  ImportFromFile empty "g" {["f" := "1;p;5|"]} = (empty, Return (Some (ErrOpen "g"))) /\
  ImportFromFile_os (open_file "" (Some (ErrIO "read d: is a directory"))) empty
  = (empty, Return (Some (ErrIO "read d: is a directory"))) /\
  ImportFromFile empty "f" {["f" := "1;p;5|2;q|3;r;7|"]}
  = (mkService 0 [mkAccount 1 "p" 5] [] [], Panic) /\
  ImportFromFile empty "f" {["f" := "1;p;5|2;q;6"]}
  = (mkService 0 [mkAccount 1 "p" 5; mkAccount 2 "q" 6] [] [], Return None).
Proof.
  destruct (ImportFromFile_behaviour empty) as (Hopen & Hread & Hall & Hfs).
  split_and!.
  - rewrite Hfs. apply Hopen.
  - apply Hread.
  - rewrite Hfs. apply (Hall "1;p;5|2;q|3;r;7|").
  - rewrite Hfs. apply (Hall "1;p;5|2;q;6").
Defined.

(** Importing the export of a service into any service, which need not be
    fresh, appends the exported accounts to the accounts of the importing
    service and touches nothing else; nothing is compared or replaced, so
    importing into the exporting service itself doubles its accounts. *)
Theorem import_appends_export s0 s path fs :
  Forall (fun a => clean_for ";" a /\ clean_for "|" a) (accounts s) ->
  Forall int64_fields (accounts s) ->
  ImportFromFile s0 path (fst (ExportToFile s path fs))
  = (mkService (nextAccountID s0) (accounts s0 ++ accounts s)
       (payments s0) (favorites s0),
     Return None).
Proof.
  intros Hclean Hrange.
  assert (Forall (clean_for "|") (accounts s)) as Hbar
    by (apply (Forall_impl _ _ _ Hclean); tauto).
  assert (Forall (clean_for ";") (accounts s)) as Hsemi
    by (apply (Forall_impl _ _ _ Hclean); tauto).
  rewrite import_export by done.
  by rewrite map_record_account_record_of.
Qed.

Lemma import_appends_export_witness :
  let s := mkService 2 [mkAccount 1 "a" 500; mkAccount 2 "b" 0] [] [] in
  accounts (fst (ImportFromFile s "f" (fst (ExportToFile s "f" ∅))))
  = [mkAccount 1 "a" 500; mkAccount 2 "b" 0; mkAccount 1 "a" 500; mkAccount 2 "b" 0].
Proof.
  intros s. rewrite (import_appends_export s s "f" ∅).
  - reflexivity.
  - repeat constructor.
  - repeat constructor; vm_compute; congruence.
Defined.

(** When no phone holds ["|"], the exported file has one ["|"] for each
    account: split at ["|"], it gives the records of the accounts in order,
    followed by one empty segment. *)
Theorem exported_file_splits_into_records s path fs :
  Forall (clean_for "|") (accounts s) ->
  exists file,
    fst (ExportToFile s path fs) !! path = Some file /\
    gostrings.Split file "|" = map record_of (accounts s) ++ [EmptyString] /\
    length (gostrings.Split file "|") = S (length (accounts s)).
Proof.
  intros Hbar. exists (file_of (accounts s)). rewrite ExportToFile_file. cbn [fst].
  rewrite Split_file_of by done. split_and!; [apply lookup_insert_eq | done |].
  rewrite length_app, length_map. cbn. lia.
Qed.

Lemma exported_file_splits_into_records_witness :
  exists file,
    fst (ExportToFile (mkService 2 [mkAccount 1 "a;b" 500; mkAccount 2 "" (-3)] [] [])
           "f" ∅) !! "f" = Some file /\
    gostrings.Split file "|" = ["1;a;b;500"; "2;;-3"; ""].
Proof.
  destruct (exported_file_splits_into_records
              (mkService 2 [mkAccount 1 "a;b" 500; mkAccount 2 "" (-3)] [] [])
              "f" ∅ ltac:(repeat constructor)) as (file & Hfile & Hsplit & _).
  exists file. split; [exact Hfile | exact Hsplit].
Defined.

Lemma export_loop_fault n err a l' l : forall k file,
  export_loop (l ++ a :: l') k (Some ((k + length l)%nat, n, err)) file
  = (file +:+ file_of l +:+ String.substring 0 n (account_bytes a), Some err).
Proof.
  induction l as [| b l IH]; intros k file; cbn [app export_loop file_Write length].
  - by rewrite Nat.add_0_r, Nat.eqb_refl, string_app_nil_l.
  - replace (Nat.eqb k (k + S (length l))) with false
      by (symmetry; apply Nat.eqb_neq; lia).
    replace (k + S (length l))%nat with (S k + length l)%nat by lia.
    rewrite IH, account_bytes_eq.
    change (file_of (b :: l)) with ((record_of b +:+ "|") +:+ file_of l).
    by rewrite !string_app_assoc.
Qed.

Lemma export_loop_late_fault k' n err l : forall k file,
  (k + length l <= k')%nat ->
  export_loop l k (Some (k', n, err)) file = (file +:+ file_of l, None).
Proof.
  induction l as [| b l IH]; intros k file Hlate;
    cbn [export_loop file_Write length] in *.
  - by rewrite string_app_nil_r.
  - replace (Nat.eqb k k') with false by (symmetry; apply Nat.eqb_neq; lia).
    rewrite IH by lia. rewrite account_bytes_eq.
    change (file_of (b :: l)) with ((record_of b +:+ "|") +:+ file_of l).
    by rewrite !string_app_assoc.
Qed.

(** When [ExportToFile] fails.  If the file cannot be created, the call
    returns that error and no file is touched.  If the write for the
    account at position [k] fails after [n] bytes, the call returns that
    error at once: the file holds the records of the accounts in front of
    that one, each with its delimiter, then the first [n] bytes of the
    record at fault, and nothing of the accounts behind it.  A fault at a
    write that never takes place changes nothing. *)
Theorem ExportToFile_failures s path fs :
  Forall int64_fields (accounts s) ->
  (forall err, ExportToFile_os (create_error err) s path fs = (fs, Some err)) /\
  (forall n err l a l',
     accounts s = l ++ a :: l' ->
     ExportToFile_os (create_file (Some (length l, n, err))) s path fs
     = (<[path := written_file l +:+
                  String.substring 0 n (written_record a +:+ "|")]> fs,
        Some err)) /\
  (forall k n err,
     (length (accounts s) <= k)%nat ->
     ExportToFile_os (create_file (Some (k, n, err))) s path fs
     = ExportToFile s path fs).
Proof.
  intros Hrange. split_and!.
  - done.
  - intros n err l a l' Hacc. rewrite Hacc in Hrange.
    apply Forall_app in Hrange as [Hl [Ha _]%Forall_cons].
    unfold ExportToFile_os, getAccounts. rewrite Hacc.
    change (length l) with (0 + length l)%nat.
    rewrite (export_loop_fault n err a l' l 0 EmptyString).
    by rewrite string_app_nil_l, account_bytes_eq, file_of_written,
      record_of_written.
  - intros k n err Hlate. rewrite ExportToFile_file.
    unfold ExportToFile_os, getAccounts.
    by rewrite export_loop_late_fault, string_app_nil_l by (cbn; lia).
Qed.

Lemma ExportToFile_failures_witness :
  let s := mkService 2 [mkAccount 1 "a" 500; mkAccount 2 "b" 7; mkAccount 3 "c" 9]
             [] [] in
  ExportToFile_os (create_file (Some (1%nat, 2%nat, ErrIO "no space left on device")))
    s "f" ∅
  = ({["f" := "1;a;500|2;"]}, Some (ErrIO "no space left on device")).
Proof.
  intros s.
  pose proof (ExportToFile_failures s "f" ∅
                ltac:(repeat constructor; vm_compute; congruence)) as (_ & H & _).
  apply (H 2%nat (ErrIO "no space left on device") [mkAccount 1 "a" 500]
           (mkAccount 2 "b" 7) [mkAccount 3 "c" 9] eq_refl).
Defined.

End Files.
